(** * VariantMap: filtering, batching and the discrete colour scale

    A shallow embedding of [dash_bio/component_factory/_variant.py]:
    the constructor of [_VariantMap] (annotation, sample and file filters,
    batching, reshaping and label resolution) and [discrete_colorscale].

    Conventions of the embedding.
    - A Python exception is a [Raise e] result; [Ok v] is a normal return.
    - A Python number is an integer ([Z]) or a float.  Finite floats are
      modelled by the rational they denote, in canonical form ([Qc]), so
      that equality of numbers is Leibniz equality; NaN and the infinities
      are not numbers of the model.  Missing cells of a table are [CNaN].
      The arithmetic of this first part is exact.  Where a result depends
      on the rounding of doubles, the code is embedded a second time over
      the arithmetic of the interpreter (module [Fl]), of which the
      rationals and binary64 ([B64]) are instances.
    - pandas objects live in a store ([heap]) and are handled through
      references, because the constructor both rebinds its local [df] to
      freshly built frames and assigns a column of [df_new] in place.
    - The regular-expression engine behind [Series.str.contains] is a
      parameter ([re_search]) of the development. *)

From Stdlib Require Import QArith Qcanon Qround.
From Stdlib Require PrimFloat SpecFloat FloatOps FloatAxioms.
From stdpp Require Import base list strings numbers sorting gmap.

Open Scope Qc_scope.

(** ** Exceptions and the result monad *)

Inductive exn :=
  | KeyError | IndexError | ZeroDivisionError | ValueError | OverflowError
  | ReferenceError.

Inductive result (A : Type) :=
  | Ok (a : A)
  | Raise (e : exn).
Arguments Ok {A} a.
Arguments Raise {A} e.

Global Instance exn_eq_dec : EqDecision exn.
Proof. solve_decision. Defined.
Global Instance result_eq_dec {A} `{EqDecision A} : EqDecision (result A).
Proof. solve_decision. Defined.

Global Instance result_ret : MRet result := @Ok.
Global Instance result_bind : MBind result := λ A B f m,
  match m with Ok a => f a | Raise e => Raise e end.
Global Instance result_fmap : FMap result := λ A B f m,
  match m with Ok a => Ok (f a) | Raise e => Raise e end.

(** ** Python numbers and lists *)

Inductive number :=
  | NInt (z : Z)
  | NFloat (q : Qc).

Definition number_val (x : number) : Qc :=
  match x with NInt z => Qc_of_Z z | NFloat q => q end.

(** [int(x)]: the identity on an [int], truncation toward zero on a float. *)
Definition py_int (x : number) : Z :=
  match x with
  | NInt z => z
  | NFloat q => Z.quot (Qnum q) (Z.pos (Qden q))
  end.

(** [x / y] on numbers. *)
Definition truediv (x y : Qc) : result Qc :=
  if decide (y = 0) then Raise ZeroDivisionError else Ok (x / y).

(** [math.ceil]. *)
Definition ceil (x : Qc) : Z := Qceiling x.

(** The value nearest to [q], a tie going to the even neighbour. *)
Definition round_half_even (q : Q) : Z :=
  let f := Qfloor q in
  match (q - inject_Z f ?= 1 # 2)%Q with
  | Lt => f
  | Gt => (f + 1)%Z
  | Eq => if Z.even f then f else (f + 1)%Z
  end.

(** [round(x, 3)] of the rational [x]: the thousandth nearest to it.  The
    interpreter rounds the double nearest to a quotient, which
    [B64.round3] does. *)
Definition round3 (x : Qc) : Qc := Q2Qc (round_half_even (x * 1000) # 1000).

(** [l[i]] with Python's negative indices. *)
Definition getitem {A} (l : list A) (i : Z) : result A :=
  let j := if decide (i < 0)%Z then (i + Z.of_nat (length l))%Z else i in
  if decide (j < 0)%Z then Raise IndexError
  else match l !! Z.to_nat j with
       | Some x => Ok x
       | None => Raise IndexError
       end.

(** [sorted(l)] on numbers. *)
Definition sorted (l : list Qc) : list Qc := merge_sort Qcle l.

(** ** [discrete_colorscale] (lines 360-371) *)

(** The body of the loop over [enumerate(colors)]: [k] is the pair of a
    position and the colour at it. *)
Definition extend_step (norm_mark : list Qc) (colors : list string)
    (acc : result (list (Qc * string))) (k : nat * string)
  : result (list (Qc * string)) :=
  dcolorscale ← acc;
  lo ← getitem norm_mark (Z.of_nat k.1);
  c1 ← getitem colors (Z.of_nat k.1);
  hi ← getitem norm_mark (Z.of_nat k.1 + 1);
  c2 ← getitem colors (Z.of_nat k.1);
  mret (dcolorscale ++ [(lo, c1); (hi, c2)]).

Definition discrete_colorscale (markers : list Qc) (colors : list string)
  : result (list (Qc * string)) :=
  let markers := sorted markers in
  norm_mark ← mapM (λ v,
      m0 ← getitem markers 0;
      ml ← getitem markers (-1);
      q ← truediv (v - m0) (ml - m0);
      mret (round3 q)) markers;
  foldl (extend_step norm_mark colors) (Ok []) (imap pair colors).

(** ** Tables *)

(** An axis label: pandas labels are arbitrary hashable values; the rows of
    a VariantBreak table are labelled by integers, its columns by strings,
    and a transposition exchanges the two. *)
Inductive label :=
  | LInt (z : Z)
  | LStr (s : string).

Inductive cell :=
  | CInt (z : Z)
  | CFloat (q : Qc)
  | CStr (s : string)
  | CNaN.

Global Instance label_eq_dec : EqDecision label.
Proof. solve_decision. Defined.
Global Instance cell_eq_dec : EqDecision cell.
Proof. solve_decision. Defined.
Global Instance cell_inhabited : Inhabited cell := populate CNaN.

(** A frame: the column labels, and the rows in order, each with its index
    label and its cells aligned with the columns.  Column labels are
    pairwise distinct in a VariantBreak table; a lookup by column label
    takes the first column of that name. *)
Record DataFrame := mkDF {
  columns : list label;
  rows : list (label * list cell)
}.

Global Instance DataFrame_eq_dec : EqDecision DataFrame.
Proof. solve_decision. Defined.

Definition col_pos (t : DataFrame) (c : label) : option nat :=
  fst <$> list_find (λ x, x = c) (columns t).

Definition cell_at (j : nat) (r : label * list cell) : cell := r.2 !!! j.

(** [df[c]]: the cells of column [c], one per row. *)
Definition getitem_col (t : DataFrame) (c : label) : result (list cell) :=
  match col_pos t c with
  | Some j => Ok (cell_at j <$> rows t)
  | None => Raise KeyError
  end.

(** [df[mask]] for a boolean mask. *)
Definition getitem_mask (t : DataFrame) (mask : list bool) : result DataFrame :=
  if decide (length mask = length (rows t))
  then Ok (mkDF (columns t) ((filter (λ p, p.1 = true) (zip mask (rows t))).*2))
  else Raise ValueError.

(** [df.loc[labels, :]]: for each label in turn the rows that carry it; a
    label carried by no row is a [KeyError]. *)
Definition loc_rows (t : DataFrame) (labels : list label) : result DataFrame :=
  sel ← mapM (λ l,
      match filter (λ r, r.1 = l) (rows t) with
      | [] => Raise KeyError
      | rs => Ok rs
      end) labels;
  mret (mkDF (columns t) (concat sel)).

(** [pd.concat([a, b])] of two frames cut from the same frame, which
    therefore have the same columns: the rows of [a], then those of [b]. *)
Definition concat_frames (a b : DataFrame) : DataFrame :=
  mkDF (columns a) (rows a ++ rows b).

(** [df.T] *)
Definition transpose (t : DataFrame) : DataFrame :=
  mkDF (rows t).*1 (imap (λ j c, (c, cell_at j <$> rows t)) (columns t)).

(** [df.loc[:, c] = vals]: overwrite column [c], or append it when the
    frame has no such column. *)
Definition set_column (t : DataFrame) (c : label) (vals : list cell) : DataFrame :=
  match col_pos t c with
  | Some j => mkDF (columns t)
                (zip_with (λ r v, (r.1, <[j := v]> r.2)) (rows t) vals)
  | None => mkDF (columns t ++ [c])
                (zip_with (λ r v, (r.1, r.2 ++ [v])) (rows t) vals)
  end.

(** [df.values.tolist()] *)
Definition values_tolist (t : DataFrame) : list (list cell) := (rows t).*2.

(** *** Element-wise operations on a column *)

(** [c == v] for a number [v]. *)
Definition cell_eq_num (v : Qc) (c : cell) : bool :=
  match c with
  | CInt z => bool_decide (Qc_of_Z z = v)
  | CFloat q => bool_decide (q = v)
  | _ => false
  end.

(** [c != s] for a string [s]. *)
Definition cell_ne_str (s : string) (c : cell) : bool :=
  match c with
  | CStr s' => negb (bool_decide (s' = s))
  | _ => true
  end.

(** [c in ks] for a list of integers, as [Series.isin] decides it. *)
Definition cell_isin (ks : list Z) (c : cell) : bool :=
  match c with
  | CInt z => bool_decide (z ∈ ks)
  | CFloat q => bool_decide (q ∈ Qc_of_Z <$> ks)
  | _ => false
  end.

(** [np.divmod(np.arange(n), batch_size)[0] + 1] *)
Definition group_numbers (n : nat) (batch_size : Z) : list cell :=
  (λ i, CInt (Z.of_nat i `div` batch_size + 1)) <$> seq 0 n.

(** ** The store of pandas objects *)

Abbreviation ref := nat (only parsing).
Abbreviation heap := (list DataFrame) (only parsing).

(** A computation reads and updates the store and returns or raises. *)
Definition Py (A : Type) : Type := heap → result A * heap.

Global Instance Py_ret : MRet Py := λ A a h, (Ok a, h).
Global Instance Py_bind : MBind Py := λ A B f m h,
  match m h with
  | (Ok a, h') => f a h'
  | (Raise e, h') => (Raise e, h')
  end.

Definition lift {A} (m : result A) : Py A := λ h, (m, h).

Definition new (t : DataFrame) : Py ref := λ h, (Ok (length h), h ++ [t]).

Definition deref (r : ref) : Py DataFrame := λ h,
  match h !! r with
  | Some t => (Ok t, h)
  | None => (Raise ReferenceError, h)
  end.

Definition store (r : ref) (t : DataFrame) : Py unit := λ h,
  (Ok (), <[r := t]> h).

(** [for x in l: s = body(s, x)] *)
Fixpoint for_each {A S} (l : list A) (body : S → A → Py S) (s : S) : Py S :=
  match l with
  | [] => mret s
  | x :: l' => s' ← body s x; for_each l' body s'
  end.

(** *** pandas operations on references: every indexing operation builds a
    new object, only the column assignment updates one in place. *)

Definition py_col (df : ref) (c : label) : Py (list cell) :=
  t ← deref df; lift (getitem_col t c).

Definition py_mask (df : ref) (mask : list bool) : Py ref :=
  t ← deref df; t' ← lift (getitem_mask t mask); new t'.

Definition py_loc (df : ref) (labels : list label) : Py ref :=
  t ← deref df; t' ← lift (loc_rows t labels); new t'.

Definition py_copy (df : ref) : Py ref :=
  t ← deref df; new t.

Definition py_concat (a b : ref) : Py ref :=
  ta ← deref a; tb ← deref b; new (concat_frames ta tb).

Definition py_transpose (df : ref) : Py ref :=
  t ← deref df; new (transpose t).

Definition py_set_column (df : ref) (c : label) (vals : list cell) : Py unit :=
  t ← deref df; store df (set_column t c vals).

Definition py_len (df : ref) : Py nat :=
  t ← deref df; mret (length (rows t)).

Definition py_columns (df : ref) : Py (list label) :=
  t ← deref df; mret (columns t).

Definition py_values (df : ref) : Py (list (list cell)) :=
  t ← deref df; mret (values_tolist t).

(** ** The constructor of [_VariantMap] *)

(** The [annotation] argument: a dict whose reserved keys ['Gene_name'] and
    ['index_list'] are present or not, and whose other keys, in the order of
    the dict, name annotation columns.  [None] and the empty dict are the
    record with no key. *)
Record Annotation := mkAnnotation {
  Gene_name : option (list string);
  index_list : option (list Z);
  other_keys : list (string * list string)
}.

Definition no_annotation : Annotation := mkAnnotation None None [].

(** Truth value of a list and of the dict. *)
Definition nonempty {A} (l : list A) : bool :=
  match l with [] => false | _ => true end.

Definition annotation_truthy (a : Annotation) : bool :=
  match Gene_name a, index_list a, other_keys a with
  | None, None, [] => false
  | _, _, _ => true
  end.

(** ['|'.join([x + ';' for x in genes])] *)
Definition gene_pattern (genes : list string) : string :=
  String.concat "|" ((λ x, x +:+ ";") <$> genes).

(** The fields of the object that the figure is drawn from. *)
Record VariantMapObj := mkVM {
  dcolorsc : list (Qc * string);
  batch_size : Z;
  z : list (list cell);
  hover : list (list cell);
  names : list string
}.

(** Lines 258-271: the display names, reversed. *)
Definition resolve_names (sample_names : option (gmap string string))
    (sample_order : list string) : list string :=
  let names :=
    match sample_names with
    | None => sample_order
    | Some d =>
        foldl (λ names name,
                 match d !! name with
                 | Some v => names ++ [v]
                 | None => names ++ [name]
                 end) [] sample_order
    end in
  reverse names.

Definition markers8 : list Qc :=
  (λ k : Z, Q2Qc (k # 10)) <$> [0; 2; 4; 6; 8; 10; 12; 14]%Z.

(** Lines 230-234: the number of divisions and the batch size for [n]
    rows, with quotients that are exact.  [Fl.batch_size_of] takes the
    quotients as the interpreter rounds them. *)
Definition batch_size_of (n : nat) (entries_per_batch : number) : result Z :=
  q ← truediv (Qc_of_Z (Z.of_nat n)) (number_val entries_per_batch);
  let div := Qc_of_Z (ceil q) + Q2Qc (1 # 1000) in
  q' ← truediv (Qc_of_Z (Z.of_nat n)) div;
  mret (ceil q').

(** [d[k]] on a dict. *)
Definition dict_getitem (d : gmap string string) (k : string) : result string :=
  match d !! k with
  | Some v => Ok v
  | None => Raise KeyError
  end.

Definition sv_classes : list string :=
  ["NIL"; "DEL"; "INV"; "INS"; "BND"; "DUP"; "UKN"].

Definition color_dict : gmap string string :=
  list_to_map [("DEL", "#4daf4a"); ("INV", "#377eb8"); ("INS", "#e41a1c");
               ("BND", "#984ea3"); ("DUP", "#ff7f00"); ("UKN", "#000000");
               ("NIL", "#d1d9e0")].

Section VariantMap.

(** [re_search pat s]: whether the regular expression [pat] matches
    somewhere in [s]. *)
Variable re_search : string → string → bool.

(** [col.str.contains(pat)] as a mask.  On a column of strings it is the
    search in every cell, and the properties below are about such columns.
    A cell that is not a string gives a missing value in an object
    column, which cannot index a frame; what pandas raises on a column
    that holds no string at all, and what its string dtype makes of a
    missing cell, is not modelled apart. *)
Definition str_contains (pat : string) (col : list cell) : result (list bool) :=
  mapM (λ c, match c with
             | CStr s => Ok (re_search pat s)
             | _ => Raise ValueError
             end) col.

(** [df[df[key].str.contains(pat)]] *)
Definition subset_contains (df : ref) (key pat : string) : Py ref :=
  col ← py_col df (LStr key);
  mask ← lift (str_contains pat col);
  py_mask df mask.

(** Lines 185-203. *)
Definition subset_by_gene_and_index (df : ref) (annotation : Annotation) : Py ref :=
  if annotation_truthy annotation then
    match Gene_name annotation, index_list annotation with
    | Some genes, Some idx =>
        if nonempty genes && nonempty idx then
          g ← subset_contains df "Gene_name" (gene_pattern genes);
          df_genes ← py_copy g;
          i ← py_loc df (LInt <$> idx);
          df_indexes ← py_copy i;
          py_concat df_genes df_indexes
        else
          df ← (if nonempty genes
                then subset_contains df "Gene_name" (gene_pattern genes)
                else mret df);
          if nonempty idx then py_loc df (LInt <$> idx) else mret df
    | genes, idx =>
        df ← match genes with
             | Some genes =>
                 if nonempty genes
                 then subset_contains df "Gene_name" (gene_pattern genes)
                 else mret df
             | None => mret df
             end;
        match idx with
        | Some idx => if nonempty idx then py_loc df (LInt <$> idx) else mret df
        | None => mret df
        end
    end
  else mret df.

(** Lines 205-212: the reserved keys are passed over, so the loop runs
    over the other keys. *)
Definition subset_by_annotation (df : ref) (annotation : Annotation) : Py ref :=
  if annotation_truthy annotation then
    for_each (other_keys annotation)
      (λ df kv, if nonempty kv.2
                then subset_contains df kv.1 (String.concat "|" kv.2)
                else mret df) df
  else mret df.

(** Lines 214-217. *)
Definition subset_by_sample (df : ref) (filter_sample : list string) : Py ref :=
  if nonempty filter_sample then
    for_each filter_sample
      (λ df sample,
         col ← py_col df (LStr sample);
         py_mask df (cell_eq_num 0 <$> col)) df
  else mret df.

(** Lines 219-222. *)
Definition subset_by_file (df : ref) (filter_file : list string) : Py ref :=
  if nonempty filter_file then
    for_each filter_file
      (λ df _filter,
         col ← py_col df (LStr _filter);
         py_mask df (cell_ne_str "1" <$> col)) df
  else mret df.

(** Lines 185-222. *)
Definition filter_stage (df : ref) (annotation : Annotation)
    (filter_sample filter_file : list string) : Py ref :=
  df ← subset_by_gene_and_index df annotation;
  df ← subset_by_annotation df annotation;
  df ← subset_by_sample df filter_sample;
  subset_by_file df filter_file.

(** Lines 224-271. *)
Definition display_stage (dcol : list (Qc * string)) (df : ref)
    (entries_per_batch batch_no_for_display : number)
    (samples : list string) (sample_names : option (gmap string string))
  : Py VariantMapObj :=
  df_new ← py_copy df;
  cols ← py_columns df_new;
  let sample_order := filter (λ x, LStr x ∈ cols) samples in
  n ← py_len df_new;
  batch_size ← lift (batch_size_of n entries_per_batch);
  _ ← py_set_column df_new (LStr "Group") (group_numbers n batch_size);
  group ← py_col df_new (LStr "Group");
  df_new ← py_mask df_new (cell_isin [py_int batch_no_for_display] <$> group);
  df_new ← py_transpose df_new;
  zf ← py_loc df_new (LStr <$> sample_order);
  z ← py_values zf;
  let hover_list := (λ x, "Hover_" +:+ x) <$> sample_order in
  hf ← py_loc df_new (LStr <$> hover_list);
  hover_text ← py_values hf;
  mret (mkVM dcol batch_size (reverse z) (reverse hover_text)
             (resolve_names sample_names sample_order)).

(** [_VariantMap.__init__] (lines 156-271). *)
Definition VariantMap_init (df : ref)
    (entries_per_batch batch_no_for_display : number)
    (annotation : Annotation) (filter_sample filter_file : list string)
    (samples : list string) (sample_names : option (gmap string string))
    (colors : list string) : Py VariantMapObj :=
  dcol ← lift (discrete_colorscale markers8 colors);
  df ← filter_stage df annotation filter_sample filter_file;
  display_stage dcol df entries_per_batch batch_no_for_display
    samples sample_names.

(** [VariantMap] (lines 16-144).  [metadata_sample_names] is the value of
    [dataframe.metadata['sample_names']], read when no [sample_order] is
    given.  The figure is drawn from the fields of the object built. *)
Definition VariantMap (dataframe : ref) (metadata_sample_names : list string)
    (entries_per_batch batch_no : number)
    (annotation : Annotation) (filter_sample filter_file : list string)
    (sample_order : option (list string))
    (sample_names : option (gmap string string))
    (color_list : option (gmap string string)) : Py VariantMapObj :=
  let samples :=
    match sample_order with
    | None => metadata_sample_names
    | Some l => l
    end in
  colors ← lift (mapM (λ _class,
      match color_list with
      | None => dict_getitem color_dict _class
      | Some cl =>
          match cl !! _class with
          | Some v => Ok v
          | None => dict_getitem color_dict _class
          end
      end) sv_classes);
  VariantMap_init dataframe entries_per_batch batch_no annotation
    filter_sample filter_file samples sample_names colors.

End VariantMap.

(** ** Reference definitions used to state the properties *)

(** The step colour scale as section 4.2 words it: for each colour in turn
    the two control points at the left and right boundary of its band. *)
Fixpoint control_points (norm_mark : list Qc) (colors : list string)
  : list (Qc * string) :=
  match norm_mark, colors with
  | lo :: (hi :: _) as rest, c :: colors' =>
      (lo, c) :: (hi, c) :: control_points rest colors'
  | _, _ => []
  end.

(** Min-max scaling of [v] between [lo] and [hi], to three decimals. *)
Definition min_max (lo hi v : Qc) : Qc := round3 ((v - lo) / (hi - lo)).

(** The cell of row [r] in column [c] of frame [t] (missing when the
    frame has no such column). *)
Definition row_cell (t : DataFrame) (c : label) (r : label * list cell) : cell :=
  match col_pos t c with
  | Some j => cell_at j r
  | None => CNaN
  end.

(** The value of row [r] is 0.0 for every sample listed. *)
Definition zero_in_all (t : DataFrame) (samples : list string)
    (r : label * list cell) : bool :=
  forallb (λ s, cell_eq_num 0 (row_cell t (LStr s) r)) samples.

(** The sample filter as section 3 and step 3 of section 4.1 word it: a row
    stays when its value is not 0.0 for any sample listed. *)
Definition nonzero_in_all (t : DataFrame) (samples : list string)
    (r : label * list cell) : bool :=
  forallb (λ s, negb (cell_eq_num 0 (row_cell t (LStr s) r))) samples.

(** Every row has one cell per column. *)
Definition rectangular (t : DataFrame) : Prop :=
  Forall (λ r, length r.2 = length (columns t)) (rows t).

(** The number of groups that [n] rows in batches of [batch_size] fall
    into, which is the number of the last group. *)
Definition group_count (n : nat) (batch_size : Z) : Z :=
  match n with
  | O => 0
  | S m => Z.of_nat m `div` batch_size + 1
  end.

(** The number of groups computed for [n] rows. *)
Definition computed_groups (n : nat) (entries_per_batch : number) : Z :=
  match batch_size_of n entries_per_batch with
  | Ok batch_size => group_count n batch_size
  | Raise _ => 0
  end.

(** The number of batches that the docstring of [VariantMap] announces:
    the number of entries over [entries_per_batch], rounded up. *)
Definition announced_batches (n : nat) (entries_per_batch : Z) : Z :=
  ceil (Qc_of_Z (Z.of_nat n) / Qc_of_Z entries_per_batch).

(** ** Example tables *)

(** [n] variants numbered from 0 over one sample S1; the cell of a variant
    is its number, so that a matrix shows which variants it holds. *)
Definition numbered_table (n : nat) : DataFrame :=
  mkDF [LStr "S1"; LStr "Hover_S1"]
    ((λ i, (LInt (Z.of_nat i), [CInt (Z.of_nat i); CStr "v"])) <$> seq 0 n).

Definition class_code (k : Z) : cell := CFloat (Q2Qc (k # 10)).

(** Three variants and two samples: S1 carries the second variant only, S2
    the first only. *)
Definition table3 : DataFrame :=
  mkDF [LStr "Gene_name"; LStr "S1"; LStr "S2";
        LStr "Hover_S1"; LStr "Hover_S2"; LStr "Filter1"]
    [ (LInt 0, [CStr "GENE1;"; class_code 0; class_code 2;
                CStr "h10"; CStr "h20"; CStr "0"]);
      (LInt 1, [CStr "GENE2;"; class_code 4; class_code 0;
                CStr "h11"; CStr "h21"; CStr "1"]);
      (LInt 2, [CStr "GENE1;GENE3;"; class_code 0; class_code 0;
                CStr "h12"; CStr "h22"; CStr "0"]) ].

(** Ten variants over one sample; the gene field of the variants 2 and 5
    holds GENE1. *)
Definition gene_table : DataFrame :=
  mkDF [LStr "Gene_name"; LStr "S1"; LStr "Hover_S1"]
    ((λ i : Z,
        (LInt i,
         [CStr (if bool_decide (i = 2)%Z then "GENE1;"
                else if bool_decide (i = 5)%Z then "GENE7;GENE1;"
                else if bool_decide (i = 7)%Z then "GENE11;"
                else "GENE2;");
          class_code 2; CStr "h"])) <$> seqZ 0 10).

(** ** Reference definitions on rows and on the store *)


(** [s] has the literal [p] as a substring. *)
Fixpoint contains (p s : string) : bool :=
  String.prefix p s
  || match s with
     | EmptyString => false
     | String _ s' => contains p s'
     end.

(** The alternatives of a pattern made of literals joined by a bar. *)
Fixpoint alternatives (pat : string) : list string :=
  match pat with
  | EmptyString => [EmptyString]
  | String c pat' =>
      if bool_decide (String c EmptyString = "|") then EmptyString :: alternatives pat'
      else match alternatives pat' with
           | [] => [String c EmptyString]
           | a :: l => String c a :: l
           end
  end.

(** The search of the regular expression engine on such a pattern: one of
    the literals is a substring. *)
Definition literal_search (pat s : string) : bool :=
  existsb (λ a, contains a s) (alternatives pat).

(** [leaves n m Q]: run from a store of at least [n] objects, [m] does not
    touch the first [n] of them, keeps them in the store, and a value it
    returns satisfies [Q]. *)
Definition leaves {A} (n : nat) (m : Py A) (Q : A → Prop) : Prop :=
  ∀ h, (n ≤ length h)%nat →
    take n (m h).2 = take n h ∧ (n ≤ length (m h).2)%nat
    ∧ ∀ a, (m h).1 = Ok a → Q a.

Definition any {A} : A → Prop := λ _, True.

(** ** Further reference definitions *)


(** No file filter listed flags the row: its cell in the column of each
    filter is not the string ['1']. *)
Definition not_flagged (t : DataFrame) (files : list string)
    (r : label * list cell) : bool :=
  forallb (λ f, cell_ne_str "1" (row_cell t (LStr f) r)) files.



(** The rows of batch [k] when every [batch_size] consecutive rows make a
    batch, the first [batch_size] rows being batch 1. *)
Definition batch_slice {A} (batch_size k : Z) (l : list A) : list A :=
  if decide (1 ≤ k)%Z
  then take (Z.to_nat batch_size) (drop (Z.to_nat ((k - 1) * batch_size)) l)
  else [].

(** The colour of an SV class: the entry of [color_list] when it has one
    for the class, the default colour otherwise. *)
Definition class_color (color_list : option (gmap string string))
    (c : string) : string :=
  default (default "" (color_dict !! c)) (cl ← color_list; cl !! c).

Definition map_colors (color_list : option (gmap string string))
  : list string :=
  class_color color_list <$> sv_classes.

(** The boundaries 0.0, 0.2, ..., 1.4 scaled between 0 and 1, to three
    decimals. *)
Definition norm8 : list Qc :=
  (λ k : Z, Q2Qc (k # 1000)) <$> [0; 143; 286; 429; 571; 714; 857; 1000]%Z.

Definition map_colorscale (color_list : option (gmap string string))
  : list (Qc * string) :=
  control_points norm8 (map_colors color_list).

(** Lines 182-183: where the legend puts the name of each class. *)
Definition tickvals : list Qc :=
  (λ k : Z, Q2Qc (k # 1000)) <$> [71; 214; 357; 500; 643; 786; 929]%Z.

Definition ticktext : list string :=
  ["NIL"; "DEL"; "INV"; "INS"; "BND"; "DUP"; "UKN"].

(** What a batch shows for the columns [names]: for each name in turn,
    the cells of that column over the rows of the batch. *)
Definition shown (t : DataFrame) (batch_size k : Z) (names : list string)
  : list (list cell) :=
  (λ s, row_cell t (LStr s) <$> batch_slice batch_size k (rows t)) <$> names.



(** * The arithmetic of the interpreter

    The definitions above take a number for the rational it denotes and
    compute exactly.  The interpreter computes on binary64: the quotients
    of lines 231, 234 and 367 are rounded to a double before [math.ceil]
    and [round] see them, and a difference or a quotient can be an
    infinity or a NaN.  The positions of the colour scale and the size of
    a batch depend on it.  Module [Fl] therefore embeds
    [discrete_colorscale] and lines 224-271 of the constructor once more,
    over an arithmetic that is a parameter: the numbers of Python and the
    operations that the code applies to them, each as the interpreter
    performs it. *)

Module Fl.

Class Arithmetic := {
  (** Python numbers, [int] and [float]. *)
  num : Type;
  (** An [int] as a number. *)
  of_int : Z → num;
  (** The [float] that a decimal literal denotes. *)
  literal : Q → num;
  (** [x + y], [x - y] and [x / y]. *)
  add : num → num → result num;
  sub : num → num → result num;
  truediv : num → num → result num;
  (** [round(x, 3)] of a [float]. *)
  round3 : num → num;
  (** [sorted(l)]. *)
  sorted : list num → list num;
  (** [math.ceil(x)] and [int(x)]. *)
  ceil : num → result Z;
  int : num → result Z
}.

Section Embedding.

Context `{A : Arithmetic}.

(** ** [discrete_colorscale] (lines 360-371) *)

(** The body of the loop over [enumerate(colors)]. *)
Definition extend_step (norm_mark : list num) (colors : list string)
    (acc : result (list (num * string))) (k : nat * string)
  : result (list (num * string)) :=
  dcolorscale ← acc;
  lo ← getitem norm_mark (Z.of_nat k.1);
  c1 ← getitem colors (Z.of_nat k.1);
  hi ← getitem norm_mark (Z.of_nat k.1 + 1);
  c2 ← getitem colors (Z.of_nat k.1);
  mret (dcolorscale ++ [(lo, c1); (hi, c2)]).

Definition discrete_colorscale (markers : list num) (colors : list string)
  : result (list (num * string)) :=
  let markers := sorted markers in
  norm_mark ← mapM (λ v,
      m0 ← getitem markers 0;
      x ← sub v m0;
      ml ← getitem markers (-1);
      m0' ← getitem markers 0;
      d ← sub ml m0';
      q ← truediv x d;
      mret (round3 q)) markers;
  foldl (extend_step norm_mark colors) (Ok []) (imap pair colors).

(** Line 180: the boundaries 0.0, 0.2, ..., 1.4. *)
Definition markers8 : list num :=
  (λ k : Z, literal (k # 10)) <$> [0; 2; 4; 6; 8; 10; 12; 14]%Z.

(** ** Lines 224-271 of the constructor *)

(** Lines 230-234: the number of divisions and the batch size for [n]
    rows. *)
Definition batch_size_of (n : nat) (entries_per_batch : num) : result Z :=
  q ← truediv (of_int (Z.of_nat n)) entries_per_batch;
  c ← ceil q;
  div ← add (of_int c) (literal (1 # 1000));
  q' ← truediv (of_int (Z.of_nat n)) div;
  ceil q'.

(** The fields of the object that the figure is drawn from. *)
Record VariantMapObj := mkVM {
  dcolorsc : list (num * string);
  batch_size : Z;
  z : list (list cell);
  hover : list (list cell);
  names : list string
}.

Definition display_stage (dcol : list (num * string)) (df : ref)
    (entries_per_batch batch_no_for_display : num)
    (samples : list string) (sample_names : option (gmap string string))
  : Py VariantMapObj :=
  df_new ← py_copy df;
  cols ← py_columns df_new;
  let sample_order := filter (λ x, LStr x ∈ cols) samples in
  n ← py_len df_new;
  batch_size ← lift (batch_size_of n entries_per_batch);
  _ ← py_set_column df_new (LStr "Group") (group_numbers n batch_size);
  group ← py_col df_new (LStr "Group");
  batch_no ← lift (int batch_no_for_display);
  df_new ← py_mask df_new (cell_isin [batch_no] <$> group);
  df_new ← py_transpose df_new;
  zf ← py_loc df_new (LStr <$> sample_order);
  z ← py_values zf;
  let hover_list := (λ x, "Hover_" +:+ x) <$> sample_order in
  hf ← py_loc df_new (LStr <$> hover_list);
  hover_text ← py_values hf;
  mret (mkVM dcol batch_size (reverse z) (reverse hover_text)
             (resolve_names sample_names sample_order)).

(** ** Reference definitions *)

(** Min-max scaling of [v] between [lo] and [hi], to three decimals, as
    the interpreter computes it. *)
Definition min_max (lo hi v : num) : result num :=
  x ← sub v lo;
  d ← sub hi lo;
  q ← truediv x d;
  mret (round3 q).

(** The step colour scale: for each colour in turn the two control points
    at the left and right boundary of its band. *)
Fixpoint control_points (norm_mark : list num) (colors : list string)
  : list (num * string) :=
  match norm_mark, colors with
  | lo :: (hi :: _) as rest, c :: colors' =>
      (lo, c) :: (hi, c) :: control_points rest colors'
  | _, _ => []
  end.

End Embedding.

End Fl.

(** The arithmetic of the first part as an instance: the rationals,
    computed exactly. *)
Definition rationals : Fl.Arithmetic := {|
  Fl.num := Qc;
  Fl.of_int := Qc_of_Z;
  Fl.literal := Q2Qc;
  Fl.add x y := Ok (x + y);
  Fl.sub x y := Ok (x - y);
  Fl.truediv := truediv;
  Fl.round3 := round3;
  Fl.sorted := sorted;
  Fl.ceil x := Ok (ceil x);
  Fl.int x := Ok (py_int (NFloat x))
|}.

(** ** Binary64

    The arithmetic of CPython on [float]s, IEEE 754 binary64 rounded to
    nearest, ties to even, on the primitive floats of the kernel.  A
    number is a [float] here; an [int] that the code puts next to a float
    (a length, a ceiling) is converted as the interpreter converts it. *)

Module B64.

(** The rational that the finite double [(-1)^s * m * 2^e] denotes. *)
Definition value (s : bool) (m : positive) (e : Z) : Q :=
  let n := if s then Z.neg m else Z.pos m in
  match e with
  | Z0 => inject_Z n
  | Zpos p => inject_Z (n * 2 ^ Z.pos p)
  | Zneg p => n # (2 ^ p)
  end.

(** [float(k)]: the double nearest to [k].  (Past the largest double the
    interpreter raises [OverflowError]; a length and the ceiling of a
    double are below it.) *)
Definition of_int (k : Z) : PrimFloat.float :=
  FloatOps.SF2Prim
    (SpecFloat.binary_normalize FloatOps.prec FloatOps.emax k 0 false).

(** The decimal literal [n/d]: the double nearest to it, for [n] and [d]
    that doubles hold exactly, and for every [n] when [d] is 1. *)
Definition literal (q : Q) : PrimFloat.float :=
  PrimFloat.div (of_int (Qnum q)) (of_int (Z.pos (Qden q))).

(** [x / y] on floats. *)
Definition truediv (x y : PrimFloat.float) : result PrimFloat.float :=
  if PrimFloat.is_zero y then Raise ZeroDivisionError
  else Ok (PrimFloat.div x y).

(** [round(x, 3)]: the double nearest to the decimal of three places that
    is nearest to [x], of two such decimals the even one; zeros,
    infinities and NaN are returned as they are.  From 2^43 on, doubles
    are more than 0.001 apart and [x] is returned; below, the thousandths
    of [x] are an integer that a double holds exactly, and the division
    rounds once. *)
Definition round3 (x : PrimFloat.float) : PrimFloat.float :=
  match FloatOps.Prim2SF x with
  | SpecFloat.S754_finite s m e =>
      if PrimFloat.leb (of_int (2 ^ 43)) (PrimFloat.abs x) then x
      else
        let k := round_half_even (value s m e * 1000)%Q in
        if (k =? 0)%Z
        then (if s then PrimFloat.neg_zero else PrimFloat.zero)
        else PrimFloat.div (of_int k) (of_int 1000)
  | _ => x
  end.

(** [math.ceil(x)] on a float. *)
Definition ceil (x : PrimFloat.float) : result Z :=
  match FloatOps.Prim2SF x with
  | SpecFloat.S754_zero _ => Ok 0%Z
  | SpecFloat.S754_infinity _ => Raise OverflowError
  | SpecFloat.S754_nan => Raise ValueError
  | SpecFloat.S754_finite s m e => Ok (Qceiling (value s m e))
  end.

(** [int(x)] on a float: truncation toward zero. *)
Definition int (x : PrimFloat.float) : result Z :=
  match FloatOps.Prim2SF x with
  | SpecFloat.S754_zero _ => Ok 0%Z
  | SpecFloat.S754_infinity _ => Raise OverflowError
  | SpecFloat.S754_nan => Raise ValueError
  | SpecFloat.S754_finite s m e =>
      Ok (Z.quot (Qnum (value s m e)) (Z.pos (Qden (value s m e))))
  end.

(** [sorted(l)] on floats none of which is a NaN: the stable sort by
    [<]. *)
Fixpoint insort (x : PrimFloat.float) (l : list PrimFloat.float)
  : list PrimFloat.float :=
  match l with
  | [] => [x]
  | y :: l' => if PrimFloat.ltb y x then y :: insort x l' else x :: l
  end.

Definition sorted (l : list PrimFloat.float) : list PrimFloat.float :=
  foldr insort [] l.

(** Min-max scaling of [v] between [lo] and [hi], to three decimals, where
    the division raises nothing. *)
Definition min_max (lo hi v : PrimFloat.float) : PrimFloat.float :=
  round3 (PrimFloat.div (PrimFloat.sub v lo) (PrimFloat.sub hi lo)).

End B64.

Definition binary64 : Fl.Arithmetic := {|
  Fl.num := PrimFloat.float;
  Fl.of_int := B64.of_int;
  Fl.literal := B64.literal;
  Fl.add x y := Ok (PrimFloat.add x y);
  Fl.sub x y := Ok (PrimFloat.sub x y);
  Fl.truediv := B64.truediv;
  Fl.round3 := B64.round3;
  Fl.sorted := B64.sorted;
  Fl.ceil := B64.ceil;
  Fl.int := B64.int
|}.

(** * Properties *)

(** ** The result monad *)

Lemma mapM_Ok {A B} (f : A → result B) (g : A → B) (l : list A) :
  Forall (λ x, f x = Ok (g x)) l → mapM f l = Ok (g <$> l).
Proof.
  induction 1 as [|x l Hx _ IH]; [done|].
  cbn. rewrite Hx. cbn. rewrite IH. reflexivity.
Qed.

Lemma getitem_nat {A} (l : list A) (i : nat) (x : A) :
  l !! i = Some x → getitem l (Z.of_nat i) = Ok x.
Proof.
  intros H. unfold getitem. cbv zeta.
  repeat case_decide; try lia.
  rewrite Nat2Z.id, H. done.
Qed.

Lemma getitem_last {A} (l : list A) (x : A) :
  last l = Some x → getitem l (-1) = Ok x.
Proof.
  intros H. unfold getitem. cbv zeta.
  assert (0 < length l)%nat by (destruct l; [done|simpl; lia]).
  repeat case_decide; try lia.
  rewrite last_lookup in H.
  replace (Z.to_nat (-1 + Z.of_nat (length l))) with (pred (length l)) by lia.
  rewrite H. done.
Qed.

(** ** [discrete_colorscale] *)


Lemma sorted_increasing (l : list Qc) : StronglySorted Qclt l → sorted l = l.
Proof.
  intros Hs. unfold sorted.
  apply (StronglySorted_unique Qcle).
  - apply StronglySorted_merge_sort; apply _.
  - induction Hs as [|x l _ IH Hx]; constructor; [done|].
    eapply Forall_impl; [exact Hx|]. intros y. apply Qclt_le_weak.
  - apply merge_sort_Permutation.
Qed.

Lemma colorscale_loop (norm_mark : list Qc) (colors : list string) cs :
  ∀ npre pre acc ns,
    norm_mark = npre ++ ns → colors = pre ++ cs →
    length npre = length pre → length ns = S (length cs) →
    foldl (extend_step norm_mark colors) (Ok acc)
          (imap (λ i, pair (length pre + i)%nat) cs)
    = Ok (acc ++ control_points ns cs).
Proof.
  induction cs as [|c cs IH]; intros npre pre acc ns Hn Hc Hl Hs.
  - destruct ns as [|a [|b ns]]; simpl in *; try lia. by rewrite app_nil_r.
  - destruct ns as [|a [|b ns]]; simpl in Hs; try lia.
    cbn [imap foldl].
    assert (norm_mark !! (length pre + 0)%nat = Some a) as Ha.
    { rewrite Hn, Nat.add_0_r, <- Hl. apply list_lookup_middle. done. }
    assert (norm_mark !! S (length pre + 0)%nat = Some b) as Hb.
    { rewrite Hn, Nat.add_0_r, <- Hl.
      rewrite (cons_middle a npre), app_assoc.
      apply list_lookup_middle. rewrite length_app. simpl. lia. }
    assert (colors !! (length pre + 0)%nat = Some c) as Hcol.
    { rewrite Hc, Nat.add_0_r. apply list_lookup_middle. done. }
    unfold extend_step at 2. cbn [fst snd].
    replace (Z.of_nat (length pre + 0) + 1)%Z
      with (Z.of_nat (S (length pre + 0))) by lia.
    rewrite (getitem_nat _ _ _ Ha), (getitem_nat _ _ _ Hb),
      (getitem_nat _ _ _ Hcol).
    cbn.
    rewrite (imap_ext _ (λ i, pair (length (pre ++ [c]) + i)%nat) cs).
    2:{ intros i x _. simpl. rewrite length_app. simpl. f_equal. lia. }
    rewrite (IH (npre ++ [a]) (pre ++ [c]) _ (b :: ns)).
    + by rewrite <- app_assoc.
    + by rewrite <- app_assoc.
    + by rewrite <- app_assoc.
    + rewrite !length_app. simpl. lia.
    + simpl. lia.
Qed.

Lemma increasing_head_lt_last (l : list Qc) (lo hi : Qc) :
  StronglySorted Qclt l → (2 ≤ length l)%nat →
  head l = Some lo → last l = Some hi → lo < hi.
Proof.
  intros Hs Hlen Hh Hl. destruct l as [|x [|y l]]; simpl in Hlen; try lia.
  simpl in Hh. inversion Hh; subst.
  inversion Hs as [|? ? _ Hx]; subst.
  change (last (lo :: y :: l)) with (last (y :: l)) in Hl.
  rewrite Forall_forall in Hx. apply Hx.
  rewrite last_lookup in Hl. by eapply list_elem_of_lookup_2.
Qed.

(** What [discrete_colorscale] computes on increasing boundaries. *)
Lemma discrete_colorscale_increasing (markers : list Qc) (colors : list string)
    (lo hi : Qc) :
  StronglySorted Qclt markers →
  length markers = S (length colors) → colors ≠ [] →
  head markers = Some lo → last markers = Some hi →
  discrete_colorscale markers colors
  = Ok (control_points (min_max lo hi <$> markers) colors).
Proof.
  intros Hs Hlen Hne Hh Hl.
  assert (2 ≤ length markers)%nat as H2.
  { destruct colors; [done|]. simpl in Hlen. lia. }
  pose proof (increasing_head_lt_last _ _ _ Hs H2 Hh Hl) as Hlt.
  unfold discrete_colorscale. cbv zeta.
  rewrite (sorted_increasing _ Hs).
  rewrite (mapM_Ok _ (min_max lo hi)).
  - cbn.
    apply (colorscale_loop _ colors colors [] [] []); try done.
    by rewrite length_fmap.
  - apply Forall_true. intros v.
    assert (getitem markers 0 = Ok lo) as ->.
    { apply (getitem_nat markers 0). by rewrite <- head_lookup. }
    rewrite (getitem_last _ _ Hl). cbn.
    unfold truediv. case_decide as E.
    + exfalso. apply (irreflexivity Qclt lo).
      replace lo with (lo + 0) at 2 by ring. rewrite <- E.
      by replace (lo + (hi - lo)) with hi by ring.
    + done.
Qed.




(** ** Label resolution *)

Lemma names_loop (d : gmap string string) (order acc : list string) :
  foldl (λ names name,
           match d !! name with
           | Some v => names ++ [v]
           | None => names ++ [name]
           end) acc order
  = acc ++ ((λ x, default x (d !! x)) <$> order).
Proof.
  revert acc. induction order as [|x order IH]; intros acc; simpl.
  - by rewrite app_nil_r.
  - rewrite IH. destruct (d !! x); simpl; by rewrite <- app_assoc.
Qed.

(** C7.  Each display label is the name that [sample_names] maps the
    sample identifier to when it is a key, and the identifier itself
    otherwise (no mapping at all leaves every identifier as it is); the
    label list is the reverse of the substituted list.  In particular
    ["S1", "S2"] with [{"S1": "Patient A"}] gives ["Patient A", "S2"]
    before the reversal. *)
Theorem resolve_names_spec (sample_names : option (gmap string string))
    (sample_order : list string) :
  resolve_names sample_names sample_order
    = reverse ((λ x, default x (d ← sample_names; d !! x)) <$> sample_order)
  ∧ resolve_names (Some {["S1" := "Patient A"]}) ["S1"; "S2"]
    = reverse ["Patient A"; "S2"].
Proof.
  split; [|reflexivity].
  unfold resolve_names. f_equal.
  destruct sample_names as [d|]; simpl.
  - apply (names_loop d sample_order []).
  - by rewrite list_fmap_id.
Qed.

(** ** The store: what a computation leaves alone *)

Close Scope Qc_scope.

Lemma leaves_weaken {A} n (m : Py A) (Q Q' : A → Prop) :
  leaves n m Q → (∀ a, Q a → Q' a) → leaves n m Q'.
Proof.
  intros Hm HQ h Hn. destruct (Hm h Hn) as (Ht & Hl & Ha). eauto.
Qed.

Lemma leaves_ret {A} n (a : A) (Q : A → Prop) : Q a → leaves n (mret a) Q.
Proof.
  intros Ha h Hn. repeat split; [done|]. intros a' [= <-]. done.
Qed.

Lemma leaves_lift {A} n (r : result A) : leaves n (lift r) any.
Proof. intros h Hn. by repeat split. Qed.

Lemma leaves_bind {A B} n (m : Py A) (f : A → Py B) Q Q' :
  leaves n m Q → (∀ a, Q a → leaves n (f a) Q') → leaves n (m ≫= f) Q'.
Proof.
  intros Hm Hf h Hn. destruct (Hm h Hn) as (Ht & Hl & Ha).
  unfold mbind, Py_bind. destruct (m h) as [[a|e] h'] eqn:E; simpl in *.
  - destruct (Hf a (Ha a eq_refl) h' Hl) as (Ht' & Hl' & Ha').
    split; [by rewrite Ht'|]. done.
  - repeat split; [done..|]. intros a [=].
Qed.

Lemma leaves_deref n (r : ref) : leaves n (deref r) any.
Proof.
  intros h Hn. unfold deref, any. case_match; simpl; auto.
Qed.

Lemma leaves_new n (t : DataFrame) : leaves n (new t) (λ r, n ≤ r).
Proof.
  intros h Hn. unfold new. simpl. split; [|split].
  - by rewrite take_app_le.
  - rewrite length_app. lia.
  - intros a [= <-]. done.
Qed.

Lemma leaves_store n (r : ref) (t : DataFrame) :
  n ≤ r → leaves n (store r t) any.
Proof.
  intros Hr h Hn. unfold store. simpl. split; [|split].
  - by rewrite take_insert_ge.
  - by rewrite length_insert.
  - done.
Qed.

Lemma leaves_for_each {A S} n (l : list A) (body : S → A → Py S) (s : S) :
  (∀ s x, leaves n (body s x) any) → leaves n (for_each l body s) any.
Proof.
  intros Hb. revert s. induction l as [|x l IH]; intros s; simpl.
  - by apply leaves_ret.
  - eapply leaves_bind; [apply Hb|]. intros s' _. apply IH.
Qed.

(** Every pandas operation but the column assignment allocates. *)
Lemma leaves_py_col n df c : leaves n (py_col df c) any.
Proof.
  eapply leaves_bind; [apply leaves_deref|]. intros t _. apply leaves_lift.
Qed.

Lemma leaves_py_mask n df mask : leaves n (py_mask df mask) (λ r, n ≤ r).
Proof.
  eapply leaves_bind; [apply leaves_deref|]. intros t _.
  eapply leaves_bind; [apply leaves_lift|]. intros t' _. apply leaves_new.
Qed.

Lemma leaves_py_loc n df labels : leaves n (py_loc df labels) (λ r, n ≤ r).
Proof.
  eapply leaves_bind; [apply leaves_deref|]. intros t _.
  eapply leaves_bind; [apply leaves_lift|]. intros t' _. apply leaves_new.
Qed.

Lemma leaves_py_copy n df : leaves n (py_copy df) (λ r, n ≤ r).
Proof.
  eapply leaves_bind; [apply leaves_deref|]. intros t _. apply leaves_new.
Qed.

Lemma leaves_py_concat n a b : leaves n (py_concat a b) (λ r, n ≤ r).
Proof.
  eapply leaves_bind; [apply leaves_deref|]. intros ta _.
  eapply leaves_bind; [apply leaves_deref|]. intros tb _. apply leaves_new.
Qed.

Lemma leaves_py_transpose n df : leaves n (py_transpose df) (λ r, n ≤ r).
Proof.
  eapply leaves_bind; [apply leaves_deref|]. intros t _. apply leaves_new.
Qed.

Lemma leaves_py_len n df : leaves n (py_len df) any.
Proof.
  eapply leaves_bind; [apply leaves_deref|]. intros t _. by apply leaves_ret.
Qed.

Lemma leaves_py_columns n df : leaves n (py_columns df) any.
Proof.
  eapply leaves_bind; [apply leaves_deref|]. intros t _. by apply leaves_ret.
Qed.

Lemma leaves_py_values n df : leaves n (py_values df) any.
Proof.
  eapply leaves_bind; [apply leaves_deref|]. intros t _. by apply leaves_ret.
Qed.

(** The column assignment updates its target, which has to be an object
    allocated since. *)
Lemma leaves_py_set_column n df c vals :
  n ≤ df → leaves n (py_set_column df c vals) any.
Proof.
  intros Hdf. eapply leaves_bind; [apply leaves_deref|]. intros t _.
  by apply leaves_store.
Qed.

Create HintDb leaves_db.
#[local] Hint Resolve leaves_lift leaves_deref leaves_new leaves_py_col
  leaves_py_mask leaves_py_loc leaves_py_copy leaves_py_concat
  leaves_py_transpose leaves_py_len leaves_py_columns leaves_py_values
  : leaves_db.

Ltac leaves_op :=
  first [ by apply leaves_ret
        | solve [eauto with leaves_db]
        | eapply leaves_weaken; [solve [eauto with leaves_db]|done] ].

Ltac leaves_seq :=
  repeat first
    [ leaves_op
    | eapply leaves_bind; [leaves_op|]; intros ? ? ].

Section Frame.

Variable re_search : string → string → bool.

Lemma leaves_subset_contains n df key pat :
  leaves n (subset_contains re_search df key pat) any.
Proof. unfold subset_contains. leaves_seq. Qed.

Lemma leaves_subset_by_gene_and_index n df annotation :
  leaves n (subset_by_gene_and_index re_search df annotation) any.
Proof.
  pose proof leaves_subset_contains.
  unfold subset_by_gene_and_index.
  repeat case_match; leaves_seq.
Qed.

Lemma leaves_subset_by_annotation n df annotation :
  leaves n (subset_by_annotation re_search df annotation) any.
Proof.
  unfold subset_by_annotation. case_match; [|by apply leaves_ret].
  apply leaves_for_each. intros s kv.
  case_match; [apply leaves_subset_contains|by apply leaves_ret].
Qed.

Lemma leaves_subset_by_sample n df filter_sample :
  leaves n (subset_by_sample df filter_sample) any.
Proof.
  unfold subset_by_sample. case_match; [|by apply leaves_ret].
  apply leaves_for_each. intros s x. leaves_seq.
Qed.

Lemma leaves_subset_by_file n df filter_file :
  leaves n (subset_by_file df filter_file) any.
Proof.
  unfold subset_by_file. case_match; [|by apply leaves_ret].
  apply leaves_for_each. intros s x. leaves_seq.
Qed.

Lemma leaves_filter_stage n df annotation filter_sample filter_file :
  leaves n (filter_stage re_search df annotation filter_sample filter_file)
    any.
Proof.
  unfold filter_stage.
  eapply leaves_bind; [apply leaves_subset_by_gene_and_index|]. intros ? _.
  eapply leaves_bind; [apply leaves_subset_by_annotation|]. intros ? _.
  eapply leaves_bind; [apply leaves_subset_by_sample|]. intros ? _.
  apply leaves_subset_by_file.
Qed.

(** The one assignment in place, of the batch numbers, goes to the copy
    made just before. *)
Lemma leaves_display_stage n dcol df e b samples sample_names :
  leaves n (display_stage dcol df e b samples sample_names) any.
Proof.
  unfold display_stage.
  eapply leaves_bind; [apply leaves_py_copy|]. intros df_new Hnew.
  pose proof (leaves_py_set_column n df_new) as Hset.
  leaves_seq.
Qed.

Lemma leaves_VariantMap_init n df e b annotation filter_sample filter_file
    samples sample_names colors :
  leaves n (VariantMap_init re_search df e b annotation filter_sample
              filter_file samples sample_names colors) any.
Proof.
  unfold VariantMap_init.
  eapply leaves_bind; [apply leaves_lift|]. intros ? _.
  eapply leaves_bind; [apply leaves_filter_stage|]. intros ? _.
  apply leaves_display_stage.
Qed.

Lemma leaves_VariantMap n dataframe metadata e b annotation filter_sample
    filter_file sample_order sample_names color_list :
  leaves n (VariantMap re_search dataframe metadata e b annotation
              filter_sample filter_file sample_order sample_names
              color_list) any.
Proof.
  unfold VariantMap.
  eapply leaves_bind; [apply leaves_lift|]. intros ? _.
  apply leaves_VariantMap_init.
Qed.

(** C6.  Whatever the filters and whether the call returns or raises,
    every table that was in the store before the call, the caller's among
    them, is the same after it: the filters and the batch column work on
    objects allocated by the call. *)
Theorem VariantMap_leaves_input (h : heap) (r : ref) (t : DataFrame)
    dataframe metadata e b annotation filter_sample filter_file
    sample_order sample_names color_list :
  h !! r = Some t →
  (VariantMap re_search dataframe metadata e b annotation filter_sample
     filter_file sample_order sample_names color_list h).2 !! r = Some t.
Proof.
  intros Hr.
  destruct (leaves_VariantMap (length h) dataframe metadata e b annotation
              filter_sample filter_file sample_order sample_names
              color_list h) as (Ht & _ & _); [done|].
  rewrite firstn_all in Ht.
  rewrite <- (lookup_take_lt _ (length h)).
  - by rewrite Ht.
  - by eapply lookup_lt_Some.
Qed.

End Frame.

Lemma VariantMap_leaves_input_witness :
  (VariantMap literal_search 0 ["S1"; "S2"] (NInt 2) (NInt 1)
     (mkAnnotation (Some ["GENE1"]) None []) ["S2"] ["Filter1"] None None
     None [table3]).2 !! 0
  = Some table3.
Proof.
  apply (VariantMap_leaves_input literal_search [table3] 0 table3).
  reflexivity.
Defined.

(** ** Running the pandas operations *)

Lemma run_bind {A B} (m : Py A) (f : A → Py B) h a h' :
  m h = (Ok a, h') → (m ≫= f) h = f a h'.
Proof. intros E. unfold mbind, Py_bind. by rewrite E. Qed.

Lemma run_bind_raise {A B} (m : Py A) (f : A → Py B) h e h' :
  m h = (Raise e, h') → (m ≫= f) h = (Raise e, h').
Proof. intros E. unfold mbind, Py_bind. by rewrite E. Qed.

Lemma run_deref (h : heap) df t : h !! df = Some t → deref df h = (Ok t, h).
Proof. intros E. unfold deref. by rewrite E. Qed.

Lemma run_py_col (h : heap) df t c col :
  h !! df = Some t → getitem_col t c = Ok col →
  py_col df c h = (Ok col, h).
Proof.
  intros Hdf Hc. unfold py_col.
  rewrite (run_bind _ _ _ _ _ (run_deref _ _ _ Hdf)). by rewrite Hc.
Qed.

Lemma run_py_mask (h : heap) df t mask t' :
  h !! df = Some t → getitem_mask t mask = Ok t' →
  py_mask df mask h = (Ok (length h), h ++ [t']).
Proof.
  intros Hdf Hm. unfold py_mask.
  rewrite (run_bind _ _ _ _ _ (run_deref _ _ _ Hdf)).
  unfold mbind, Py_bind, lift. by rewrite Hm.
Qed.

Lemma run_py_loc (h : heap) df t labels t' :
  h !! df = Some t → loc_rows t labels = Ok t' →
  py_loc df labels h = (Ok (length h), h ++ [t']).
Proof.
  intros Hdf Hm. unfold py_loc.
  rewrite (run_bind _ _ _ _ _ (run_deref _ _ _ Hdf)).
  unfold mbind, Py_bind, lift. by rewrite Hm.
Qed.

Lemma run_py_copy (h : heap) df t :
  h !! df = Some t → py_copy df h = (Ok (length h), h ++ [t]).
Proof.
  intros Hdf. unfold py_copy.
  by rewrite (run_bind _ _ _ _ _ (run_deref _ _ _ Hdf)).
Qed.


Lemma run_py_transpose (h : heap) df t :
  h !! df = Some t → py_transpose df h = (Ok (length h), h ++ [transpose t]).
Proof.
  intros Hdf. unfold py_transpose.
  by rewrite (run_bind _ _ _ _ _ (run_deref _ _ _ Hdf)).
Qed.

Lemma run_py_len (h : heap) df t :
  h !! df = Some t → py_len df h = (Ok (length (rows t)), h).
Proof.
  intros Hdf. unfold py_len.
  by rewrite (run_bind _ _ _ _ _ (run_deref _ _ _ Hdf)).
Qed.

Lemma run_py_columns (h : heap) df t :
  h !! df = Some t → py_columns df h = (Ok (columns t), h).
Proof.
  intros Hdf. unfold py_columns.
  by rewrite (run_bind _ _ _ _ _ (run_deref _ _ _ Hdf)).
Qed.

Lemma run_py_values (h : heap) df t :
  h !! df = Some t → py_values df h = (Ok (values_tolist t), h).
Proof.
  intros Hdf. unfold py_values.
  by rewrite (run_bind _ _ _ _ _ (run_deref _ _ _ Hdf)).
Qed.

Lemma run_py_set_column_last (h : heap) t c vals :
  py_set_column (length h) c vals (h ++ [t])
  = (Ok (), h ++ [set_column t c vals]).
Proof.
  unfold py_set_column.
  rewrite (run_bind _ _ _ _ _ (run_deref _ _ t (list_lookup_middle h [] t _ eq_refl))).
  unfold store. f_equal.
  rewrite insert_app_r_alt by lia. by rewrite Nat.sub_diag.
Qed.

Lemma lookup_last (h : heap) t : (h ++ [t]) !! length h = Some t.
Proof. by apply list_lookup_middle. Qed.

Ltac heap_lookup :=
  repeat first
    [ eassumption
    | apply lookup_last
    | apply lookup_app_l_Some ].

(** *** Masks computed from a column of the same frame *)

Lemma mask_filter {A} (g : A → bool) (l : list A) :
  (filter (λ p, p.1 = true) (zip (g <$> l) l)).*2
  = filter (λ x, g x = true) l.
Proof.
  induction l as [|x l IH]; [done|].
  cbn [fmap list_fmap zip zip_with].
  rewrite !filter_cons. simpl.
  destruct (g x); simpl; repeat case_decide; try done; simpl; by f_equal.
Qed.

Lemma getitem_mask_fmap (t : DataFrame) (g : label * list cell → bool) :
  getitem_mask t (g <$> rows t)
  = Ok (mkDF (columns t) (filter (λ r, g r = true) (rows t))).
Proof.
  unfold getitem_mask. rewrite length_fmap.
  case_decide; [|done]. by rewrite mask_filter.
Qed.

(** ** The sample filter *)

Lemma col_pos_elem_of (t : DataFrame) (c : label) :
  c ∈ columns t → ∃ j, col_pos t c = Some j.
Proof.
  intros Hc. unfold col_pos.
  destruct (list_find_elem_of (λ x, x = c) (columns t) c Hc eq_refl)
    as [[j x] ->].
  by exists j.
Qed.

Lemma filter_all {A} (P : A → Prop) `{∀ x, Decision (P x)} (l : list A) :
  (∀ x, P x) → filter P l = l.
Proof.
  intros HP. induction l as [|x l IH]; [done|].
  rewrite filter_cons_True by done. by f_equal.
Qed.

Lemma sample_loop (fs : list string) :
  ∀ (h : heap) df t,
    h !! df = Some t → Forall (λ s, LStr s ∈ columns t) fs →
    ∃ df' h',
      for_each fs
        (λ df sample,
           col ← py_col df (LStr sample);
           py_mask df (cell_eq_num 0 <$> col)) df h = (Ok df', h')
      ∧ h' !! df'
        = Some (mkDF (columns t)
                  (filter (λ r, zero_in_all t fs r = true) (rows t))).
Proof.
  induction fs as [|s fs IH]; intros h df t Hdf Hcols.
  - exists df, h. split; [done|].
    rewrite filter_all by done. by destruct t.
  - apply Forall_cons in Hcols as [Hs Hcols].
    destruct (col_pos_elem_of _ _ Hs) as [j Hj].
    set (t1 := mkDF (columns t)
                 (filter (λ r, cell_eq_num 0 (cell_at j r) = true) (rows t))).
    destruct (IH (h ++ [t1]) (length h) t1) as (df' & h' & Hrun & Hres);
      [apply lookup_last|done|].
    exists df', h'. split.
    + cbn [for_each].
      erewrite run_bind; [exact Hrun|].
      erewrite run_bind;
        [|eapply run_py_col; [exact Hdf|]; unfold getitem_col; by rewrite Hj].
      eapply run_py_mask; [exact Hdf|].
      rewrite <- list_fmap_compose. apply getitem_mask_fmap.
    + rewrite Hres. f_equal. subst t1. cbn [columns rows].
      rewrite list_filter_filter. f_equal.
      apply list_filter_iff. intros r.
      unfold zero_in_all, row_cell, col_pos in *. cbn [forallb columns].
      rewrite Hj, andb_true_iff. tauto.
Qed.

(** C1 (as amended).  For every sample listed in [filter_sample], each a
    column of the table, the sample filter keeps exactly the rows whose
    value in that column equals 0.0 and drops all others; with several
    samples a row stays when it has the value 0.0 for every one of them.
    Columns and row order are unchanged. *)
Theorem subset_by_sample_keeps_zero (h : heap) (df : ref) (t : DataFrame)
    (filter_sample : list string) :
  h !! df = Some t →
  Forall (λ s, LStr s ∈ columns t) filter_sample →
  ∃ df' h',
    subset_by_sample df filter_sample h = (Ok df', h')
    ∧ h' !! df'
      = Some (mkDF (columns t)
                (filter (λ r, zero_in_all t filter_sample r = true) (rows t))).
Proof.
  intros Hdf Hcols. unfold subset_by_sample.
  destruct filter_sample as [|s fs]; [|by apply sample_loop].
  exists df, h. split; [done|].
  rewrite filter_all by done. by destruct t.
Qed.

Lemma subset_by_sample_keeps_zero_witness :
  ∃ df' h',
    subset_by_sample 0 ["S1"; "S2"] [table3] = (Ok df', h')
    ∧ h' !! df'
      = Some (mkDF (columns table3)
                (filter (λ r, zero_in_all table3 ["S1"; "S2"] r = true)
                   (rows table3))).
Proof.
  apply (subset_by_sample_keeps_zero [table3] 0 table3 ["S1"; "S2"]).
  - reflexivity.
  - repeat constructor.
Defined.

(** C1, the claim as stated fails: filtering [table3] by S1 keeps the rows
    0 and 2, whose S1 value is 0.0, and drops row 1, whose value is 0.4;
    the claim has it the other way round. *)
Lemma sample_filter_keeps_the_zero_rows :
  subset_by_sample 0 ["S1"] [table3]
  = (Ok 1,
     [table3;
      mkDF (columns table3)
        [ (LInt 0, [CStr "GENE1;"; class_code 0; class_code 2;
                    CStr "h10"; CStr "h20"; CStr "0"]);
          (LInt 2, [CStr "GENE1;GENE3;"; class_code 0; class_code 0;
                    CStr "h12"; CStr "h22"; CStr "0"]) ]])
  ∧ filter (λ r, nonzero_in_all table3 ["S1"] r = true) (rows table3)
    = [ (LInt 1, [CStr "GENE2;"; class_code 4; class_code 0;
                  CStr "h11"; CStr "h21"; CStr "1"]) ].
Proof. split; compute_done. Qed.

(** ** The batch number *)

Lemma py_int_truncates (q : Qc) :
  py_int (NFloat q) = if decide (0 ≤ q)%Qc then Qfloor q else Qceiling q.
Proof.
  unfold py_int, Qceiling, Qfloor. destruct q as [[n d] Hc]. simpl.
  case_decide as Hq; unfold Qcle, Qle in Hq; simpl in Hq.
  - apply Z.quot_div_nonneg; lia.
  - rewrite <- (Z.opp_involutive n) at 1.
    rewrite Z.quot_opp_l by lia. f_equal.
    apply Z.quot_div_nonneg; lia.
Qed.

Section BatchNumber.

Variable re_search : string → string → bool.

(** C9.  The batch number is used through [int()] only, which truncates
    toward zero: two batch numbers with the same truncation give the same
    run of [VariantMap] (same result, same store), and 1.9 selects
    batch 1. *)
Theorem VariantMap_batch_no_truncated dataframe metadata e (b1 b2 : number)
    annotation filter_sample filter_file sample_order sample_names
    color_list :
  py_int b1 = py_int b2 →
  VariantMap re_search dataframe metadata e b1 annotation filter_sample
    filter_file sample_order sample_names color_list
  = VariantMap re_search dataframe metadata e b2 annotation filter_sample
      filter_file sample_order sample_names color_list
  ∧ (∀ q : Qc, py_int (NFloat q)
               = if decide (0 ≤ q)%Qc then Qfloor q else Qceiling q)
  ∧ py_int (NFloat (Q2Qc (19 # 10))) = 1%Z.
Proof.
  intros Hb. split; [|split; [apply py_int_truncates|reflexivity]].
  unfold VariantMap, VariantMap_init, display_stage.
  by rewrite Hb.
Qed.

End BatchNumber.

Lemma VariantMap_batch_no_truncated_witness :
  VariantMap (λ _ _, false) 0 ["S1"; "S2"] (NInt 2)
    (NFloat (Q2Qc (19 # 10))) no_annotation [] [] None None None
  = VariantMap (λ _ _, false) 0 ["S1"; "S2"] (NInt 2) (NInt 1)
      no_annotation [] [] None None None
  ∧ (∀ q : Qc, py_int (NFloat q)
               = if decide (0 ≤ q)%Qc then Qfloor q else Qceiling q)
  ∧ py_int (NFloat (Q2Qc (19 # 10))) = 1%Z.
Proof.
  apply VariantMap_batch_no_truncated. reflexivity.
Defined.

(** ** Batching and reshaping *)

Lemma col_pos_set_column (t : DataFrame) (c : label) (vals : list cell) :
  col_pos (set_column t c vals) c
  = Some (default (length (columns t)) (col_pos t c)).
Proof.
  unfold set_column. destruct (col_pos t c) as [j|] eqn:E; [done|].
  unfold col_pos in *. cbn [columns].
  destruct (list_find _ (columns t)) as [[j x]|] eqn:Ef; [done|].
  rewrite list_find_app_r by done. simpl.
  case_decide; [|done]. simpl. f_equal; lia.
Qed.


(** *** The batch size *)

Lemma Qc_of_Z_this (k : Z) : (this (Qc_of_Z k) == inject_Z k)%Q.
Proof. reflexivity. Qed.







(** *** Selection by label *)

Lemma selection_nonempty (rs : list (label * list cell)) (l : label) :
  l ∈ rs.*1 → filter (λ r, r.1 = l) rs ≠ [].
Proof.
  intros Hin E.
  apply list_elem_of_fmap in Hin as (r & -> & Hr).
  assert (r ∈ filter (λ r', r'.1 = r.1) rs) as Hf
    by (by apply list_elem_of_filter).
  rewrite E in Hf. by apply not_elem_of_nil in Hf.
Qed.

Lemma loc_rows_present (t : DataFrame) (labels : list label) :
  Forall (λ l, l ∈ (rows t).*1) labels →
  loc_rows t labels
  = Ok (mkDF (columns t)
          (concat ((λ l, filter (λ r, r.1 = l) (rows t)) <$> labels))).
Proof.
  intros Hl. unfold loc_rows.
  rewrite (mapM_Ok _ (λ l, filter (λ r, r.1 = l) (rows t))); [done|].
  eapply Forall_impl; [exact Hl|]. intros l Hin. cbn beta.
  apply selection_nonempty in Hin.
  by destruct (filter _ (rows t)).
Qed.




(** *** The colour scale of the map *)

Lemma class_colors (color_list : option (gmap string string)) :
  ∃ colors,
    mapM (λ _class,
        match color_list with
        | None => dict_getitem color_dict _class
        | Some cl =>
            match cl !! _class with
            | Some v => Ok v
            | None => dict_getitem color_dict _class
            end
        end) sv_classes = Ok colors
    ∧ length colors = 7.
Proof.
  destruct color_list as [cl|].
  - exists ((λ c, default (default c (color_dict !! c)) (cl !! c)) <$> sv_classes).
    split; [|done].
    apply mapM_Ok. unfold sv_classes.
    repeat constructor; cbn beta; by destruct (cl !! _).
  - eexists. split; [vm_compute; reflexivity|done].
Qed.

Lemma markers8_increasing : StronglySorted Qclt markers8.
Proof. unfold markers8. cbn. repeat constructor; compute_done. Qed.

Lemma discrete_colorscale_markers8 (colors : list string) :
  length colors = 7 → ∃ dcol, discrete_colorscale markers8 colors = Ok dcol.
Proof.
  intros Hlen. eexists.
  apply (discrete_colorscale_increasing _ _ (Q2Qc (0 # 10)) (Q2Qc (14 # 10))).
  - apply markers8_increasing.
  - by rewrite Hlen.
  - by destruct colors.
  - reflexivity.
  - reflexivity.
Qed.

(** Past the colour scale and the filters, a run of [VariantMap] is the run
    of lines 224-271 on the filtered table. *)
Lemma run_VariantMap re_search (h : heap) dataframe metadata e b annotation
    filter_sample filter_file sample_order sample_names color_list df1 h1 :
  filter_stage re_search dataframe annotation filter_sample filter_file h
  = (Ok df1, h1) →
  ∃ dcol,
    VariantMap re_search dataframe metadata e b annotation filter_sample
      filter_file sample_order sample_names color_list h
    = display_stage dcol df1 e b
        (match sample_order with None => metadata | Some l => l end)
        sample_names h1.
Proof.
  intros Hf.
  destruct (class_colors color_list) as (colors & Hc & Hlen).
  destruct (discrete_colorscale_markers8 colors Hlen) as [dcol Hd].
  exists dcol. unfold VariantMap, VariantMap_init. cbv zeta.
  erewrite run_bind; [|unfold lift; by rewrite Hc].
  erewrite run_bind; [|unfold lift; by rewrite Hd].
  erewrite run_bind; [|exact Hf].
  reflexivity.
Qed.

(** *** The group column *)



Lemma set_column_columns (t : DataFrame) (c c' : label) (vals : list cell) :
  c' ∈ columns t → c' ∈ columns (set_column t c vals).
Proof.
  intros Hc. unfold set_column. destruct (col_pos t c); cbn; [done|].
  apply elem_of_app. by left.
Qed.



Lemma filter_none {A} (P : A → Prop) `{∀ x, Decision (P x)} (l : list A) :
  Forall (λ x, ¬ P x) l → filter P l = [].
Proof.
  induction 1 as [|x l Hx _ IH]; [done|].
  rewrite filter_cons. by case_decide.
Qed.

(** *** The transposed frame *)


Lemma transpose_labels (t : DataFrame) : (rows (transpose t)).*1 = columns t.
Proof.
  unfold transpose. cbn. rewrite fmap_imap.
  rewrite (imap_ext _ (const id)) by done.
  by rewrite imap_const, list_fmap_id.
Qed.



(** *** A batch number past the last group *)



(** *** No sample among the columns *)




(** *** The rows of the batches announced *)

(** C2.  With the default [entries_per_batch] of 2500 and 2500 rows left
    by the filters, the docstring announces 2500 / 2500 = 1 batch, but the
    batch size computed is ceil(2500 / 1.001) = 2498, so the rows fall
    into two groups: batch 1, the only batch announced, shows the rows 0
    to 2497, and the rows 2498 and 2499 are in a batch 2 past the number
    announced. *)
Lemma default_batch_misses_rows :
  let run b := VariantMap (λ _ _, false) 0 ["S1"] (NInt 2500) (NInt b)
                 no_annotation [] [] None None None [numbered_table 2500] in
  announced_batches 2500 2500 = 1%Z
  ∧ batch_size_of 2500 (NInt 2500) = Ok 2498%Z
  ∧ computed_groups 2500 (NInt 2500) = 2%Z
  ∧ z <$> (run 1%Z).1 = Ok [CInt <$> seqZ 0 2498]
  ∧ z <$> (run 2%Z).1 = Ok [[CInt 2498; CInt 2499]].
Proof. vm_compute. repeat split; reflexivity. Qed.

(** ** Gene names and explicit indexes together *)



(** With unique row labels, a label selects its one row. *)
Lemma selection_unique (rs : list (label * list cell)) (l : label) :
  NoDup rs.*1 → l ∈ rs.*1 → (filter (λ r, r.1 = l) rs).*1 = [l].
Proof.
  induction rs as [|r rs IH]; intros Hnd Hin.
  - by apply not_elem_of_nil in Hin.
  - cbn in Hnd. apply NoDup_cons in Hnd as [Hr Hnd].
    rewrite filter_cons. case_decide as E.
    + subst l. rewrite filter_none; [done|].
      apply Forall_forall. intros r' Hr' E'. apply Hr.
      rewrite <- E'. apply list_elem_of_fmap. by exists r'.
    + cbn in Hin. apply elem_of_cons in Hin as [->|Hin]; [done|].
      by apply IH.
Qed.

Lemma selection_labels (rs : list (label * list cell)) (labels : list label) :
  NoDup rs.*1 → Forall (λ l, l ∈ rs.*1) labels →
  (concat ((λ l, filter (λ r, r.1 = l) rs) <$> labels)).*1 = labels.
Proof.
  intros Hnd. induction 1 as [|l labels Hl _ IH]; [done|].
  cbn. rewrite fmap_app, IH, selection_unique by done. done.
Qed.



(** ** The filters, one by one *)

Lemma col_pos_not_elem_of (t : DataFrame) (c : label) :
  c ∉ columns t → col_pos t c = None.
Proof.
  intros Hc. unfold col_pos.
  destruct (list_find _ (columns t)) as [[j x]|] eqn:E; [|done].
  apply list_find_Some in E as (Hl & -> & _).
  by apply list_elem_of_lookup_2 in Hl.
Qed.

(** A loop that masks the frame by one column after the other. *)
Lemma mask_loop (g : cell → bool) (cols : list string) :
  ∀ (h : list DataFrame) df t,
    h !! df = Some t → Forall (λ s, LStr s ∈ columns t) cols →
    ∃ df' h',
      for_each cols
        (λ df c, col ← py_col df (LStr c); py_mask df (g <$> col)) df h
      = (Ok df', h')
      ∧ h' !! df'
        = Some (mkDF (columns t)
                  (filter (λ r, forallb (λ s, g (row_cell t (LStr s) r)) cols
                                = true) (rows t))).
Proof.
  induction cols as [|s cols IH]; intros h df t Hdf Hcols.
  - exists df, h. split; [done|].
    rewrite filter_all by done. by destruct t.
  - apply Forall_cons in Hcols as [Hs Hcols].
    destruct (col_pos_elem_of _ _ Hs) as [j Hj].
    set (t1 := mkDF (columns t)
                 (filter (λ r, g (cell_at j r) = true) (rows t))).
    destruct (IH (h ++ [t1]) (length h) t1) as (df' & h' & Hrun & Hres);
      [apply lookup_last|done|].
    exists df', h'. split.
    + cbn [for_each].
      erewrite run_bind; [exact Hrun|].
      erewrite run_bind;
        [|eapply run_py_col; [exact Hdf|]; unfold getitem_col; by rewrite Hj].
      eapply run_py_mask; [exact Hdf|].
      rewrite <- list_fmap_compose. apply getitem_mask_fmap.
    + rewrite Hres. f_equal. subst t1. cbn [columns rows].
      rewrite list_filter_filter. f_equal.
      apply list_filter_iff. intros r.
      unfold row_cell, col_pos in *. cbn [forallb columns].
      rewrite Hj, andb_true_iff. tauto.
Qed.

(** The loop stops with [KeyError] at the first column that the frame
    does not have. *)
Lemma mask_loop_missing (g : cell → bool) (cols : list string) :
  ∀ (h : list DataFrame) df t,
    h !! df = Some t → Exists (λ s, LStr s ∉ columns t) cols →
    ∃ h',
      for_each cols
        (λ df c, col ← py_col df (LStr c); py_mask df (g <$> col)) df h
      = (Raise KeyError, h').
Proof.
  induction cols as [|s cols IH]; intros h df t Hdf Hex.
  - by apply Exists_nil in Hex.
  - destruct (decide (LStr s ∈ columns t)) as [Hs|Hs].
    + apply Exists_cons in Hex as [Hex|Hex]; [done|].
      destruct (col_pos_elem_of _ _ Hs) as [j Hj].
      set (t1 := mkDF (columns t)
                   (filter (λ r, g (cell_at j r) = true) (rows t))).
      destruct (IH (h ++ [t1]) (length h) t1) as [h' Hrun];
        [apply lookup_last|done|].
      exists h'. cbn [for_each].
      erewrite run_bind; [exact Hrun|].
      erewrite run_bind;
        [|eapply run_py_col; [exact Hdf|]; unfold getitem_col; by rewrite Hj].
      eapply run_py_mask; [exact Hdf|].
      rewrite <- list_fmap_compose. apply getitem_mask_fmap.
    + exists h. cbn [for_each].
      erewrite run_bind_raise; [done|].
      erewrite run_bind_raise; [done|].
      unfold py_col. erewrite run_bind; [|by apply run_deref].
      unfold lift, getitem_col. by rewrite (col_pos_not_elem_of _ _ Hs).
Qed.

(** X1.  The file filter keeps exactly the rows whose cell, in the column
    of every filter listed, is not the string ['1'], in their order and
    with the columns of the table; each filter listed must be a column. *)
Theorem subset_by_file_keeps_unflagged (h : list DataFrame) (df : nat)
    (t : DataFrame) (filter_file : list string) :
  h !! df = Some t →
  Forall (λ f, LStr f ∈ columns t) filter_file →
  ∃ df' h',
    subset_by_file df filter_file h = (Ok df', h')
    ∧ h' !! df'
      = Some (mkDF (columns t)
                (filter (λ r, not_flagged t filter_file r = true) (rows t))).
Proof.
  intros Hdf Hcols. unfold subset_by_file.
  destruct filter_file as [|f ff]; [|by apply mask_loop].
  exists df, h. split; [done|].
  rewrite filter_all by done. by destruct t.
Qed.

Lemma subset_by_file_keeps_unflagged_witness :
  ∃ df' h',
    subset_by_file 0 ["Filter1"] [table3] = (Ok df', h')
    ∧ h' !! df'
      = Some (mkDF (columns table3)
                (filter (λ r, not_flagged table3 ["Filter1"] r = true)
                   (rows table3))).
Proof.
  apply (subset_by_file_keeps_unflagged [table3] 0 table3 ["Filter1"]).
  - reflexivity.
  - repeat constructor.
Defined.

(** X2.  A sample filter or a file filter that names a column the table
    does not have makes the step raise [KeyError], also when the name
    comes after others that are columns. *)
Theorem filter_missing_column_KeyError (h : list DataFrame) (df : nat)
    (t : DataFrame) (names : list string) :
  h !! df = Some t →
  Exists (λ s, LStr s ∉ columns t) names →
  (∃ h', subset_by_sample df names h = (Raise KeyError, h'))
  ∧ (∃ h', subset_by_file df names h = (Raise KeyError, h')).
Proof.
  intros Hdf Hex. unfold subset_by_sample, subset_by_file.
  destruct names as [|s names]; [by apply Exists_nil in Hex|].
  split; by eapply mask_loop_missing.
Qed.

Lemma filter_missing_column_KeyError_witness :
  (∃ h', subset_by_sample 0 ["S1"; "S7"] [table3] = (Raise KeyError, h'))
  ∧ (∃ h', subset_by_file 0 ["S1"; "S7"] [table3] = (Raise KeyError, h')).
Proof.
  apply (filter_missing_column_KeyError [table3] 0 table3 ["S1"; "S7"]).
  - reflexivity.
  - apply Exists_cons_tl, Exists_cons_hd. compute_done.
Defined.






(** ** Gene names alone, indexes alone *)

Lemma selection_empty (rs : list (label * list cell)) (l : label) :
  l ∉ rs.*1 → filter (λ r, r.1 = l) rs = [].
Proof.
  intros Hl. apply filter_none, Forall_forall. intros r Hr E.
  apply Hl. rewrite <- E. apply list_elem_of_fmap. by exists r.
Qed.





(** X5.  A non-empty index list with no gene-name list, or with an empty
    one, builds a new table of the rows at the indexes given, in the order
    of the list and as often as the list names them, whatever their order
    in the table; with unique row labels the labels of the result are the
    index list. *)
Theorem index_list_alone re_search (h : list DataFrame) (df : nat)
    (t : DataFrame) (genes : option (list string)) (idx : list Z)
    (others : list (string * list string)) :
  h !! df = Some t →
  default [] genes = [] → idx ≠ [] →
  Forall (λ i, LInt i ∈ (rows t).*1) idx →
  ∃ t',
    subset_by_gene_and_index re_search df
      (mkAnnotation genes (Some idx) others) h
    = (Ok (length h), h ++ [t'])
    ∧ columns t' = columns t
    ∧ rows t' = concat ((λ i, filter (λ r, r.1 = LInt i) (rows t)) <$> idx)
    ∧ (NoDup (rows t).*1 → (rows t').*1 = LInt <$> idx).
Proof.
  intros Hdf Hg Hi Hidx.
  assert (Forall (λ l, l ∈ (rows t).*1) (LInt <$> idx)) as Hidx'
    by (by apply Forall_fmap).
  exists (mkDF (columns t)
            (concat ((λ l, filter (λ r, r.1 = l) (rows t))
                       <$> (LInt <$> idx)))).
  split; [|split; [done|split]].
  - unfold subset_by_gene_and_index.
    cbn [annotation_truthy Gene_name index_list].
    destruct idx as [|i idx]; [done|].
    destruct genes as [[|g genes]|]; try done;
      cbn [annotation_truthy Gene_name index_list nonempty andb].
    + erewrite run_bind; [|done].
      eapply run_py_loc; [exact Hdf|by apply loc_rows_present].
    + erewrite run_bind; [|done].
      eapply run_py_loc; [exact Hdf|by apply loc_rows_present].
  - cbn [rows]. by rewrite <- list_fmap_compose.
  - intros Hnd. cbn [rows]. by apply selection_labels.
Qed.

Lemma index_list_alone_witness :
  ∃ t',
    subset_by_gene_and_index literal_search 0
      (mkAnnotation None (Some [9; 5; 9]%Z) []) [gene_table]
    = (Ok (length [gene_table]), [gene_table] ++ [t'])
    ∧ columns t' = columns gene_table
    ∧ rows t'
      = concat ((λ i, filter (λ r, r.1 = LInt i) (rows gene_table))
                  <$> [9; 5; 9]%Z)
    ∧ (NoDup (rows gene_table).*1 → (rows t').*1 = LInt <$> [9; 5; 9]%Z).
Proof.
  apply (index_list_alone literal_search [gene_table] 0 gene_table None
           [9; 5; 9]%Z []).
  - reflexivity.
  - reflexivity.
  - done.
  - compute_done.
Defined.



(** ** Errors of the display stage *)


(** X7.  Once the filters have gone through, an [entries_per_batch] of
    zero makes [VariantMap] raise [ZeroDivisionError]. *)
Theorem VariantMap_zero_entries_per_batch re_search (h : list DataFrame)
    dataframe metadata e b annotation filter_sample filter_file sample_order
    sample_names color_list df1 h1 t1 :
  filter_stage re_search dataframe annotation filter_sample filter_file h
  = (Ok df1, h1) →
  h1 !! df1 = Some t1 →
  number_val e = 0%Qc →
  ∃ h',
    VariantMap re_search dataframe metadata e b annotation filter_sample
      filter_file sample_order sample_names color_list h
    = (Raise ZeroDivisionError, h').
Proof.
  intros Hf Hdf He.
  destruct (run_VariantMap re_search h dataframe metadata e b annotation
              filter_sample filter_file sample_order sample_names color_list
              df1 h1 Hf) as [dcol ->].
  eexists. unfold display_stage.
  erewrite run_bind; [|by eapply run_py_copy].
  erewrite run_bind; [|eapply run_py_columns; heap_lookup].
  erewrite run_bind; [|eapply run_py_len; heap_lookup].
  erewrite run_bind_raise; [done|].
  unfold lift, batch_size_of, truediv. rewrite He.
  by case_decide.
Qed.

Lemma VariantMap_zero_entries_per_batch_witness :
  ∃ h',
    VariantMap (λ _ _, false) 0 ["S1"; "S2"] (NInt 0) (NInt 1) no_annotation
      [] [] None None None [table3]
    = (Raise ZeroDivisionError, h').
Proof.
  apply (VariantMap_zero_entries_per_batch (λ _ _, false) [table3] 0
           ["S1"; "S2"] (NInt 0) (NInt 1) no_annotation [] [] None None None
           0 [table3] table3).
  - reflexivity.
  - reflexivity.
  - apply Qc_is_canon. reflexivity.
Defined.




(** ** The rows of a batch *)

Lemma div_group (bs i k : Z) :
  (1 ≤ bs)%Z → (0 ≤ i)%Z →
  (i `div` bs + 1 = k)%Z ↔ ((k - 1) * bs ≤ i < k * bs)%Z.
Proof.
  intros Hbs Hi.
  pose proof (Z.mul_div_le i bs). pose proof (Z.mul_succ_div_gt i bs).
  split.
  - intros <-. lia.
  - intros [H1 H2].
    assert (k - 1 = i `div` bs)%Z; [|lia].
    apply (Z.div_unique i bs (k - 1) (i - bs * (k - 1))); lia.
Qed.

(** Masking by the group number keeps a run of consecutive rows. *)
Lemma group_filter_slice (mk : label * list cell → cell → label * list cell)
    (jg : nat) (bs k : Z) (a b : nat) :
  (1 ≤ bs)%Z →
  a = Z.to_nat ((k - 1) * bs) → b = Z.to_nat (k * bs) →
  ∀ rs s,
    Forall (λ r, ∀ v, cell_at jg (mk r v) = v) rs →
    filter (λ r, cell_isin [k] (cell_at jg r) = true)
      (zip_with mk rs
         ((λ i, CInt (Z.of_nat i `div` bs + 1)) <$> seq s (length rs)))
    = (λ r, mk r (CInt k)) <$> take (b - max a s) (drop (a - s) rs).
Proof.
  intros Hbs Ha Hb. induction rs as [|r rs IH]; intros s Hcell.
  - by rewrite drop_nil, take_nil.
  - apply Forall_cons in Hcell as [Hr Hcell].
    assert ((Z.of_nat s `div` bs + 1 = k)%Z ↔ a ≤ s < b) as Hg.
    { rewrite div_group by lia.
      destruct (decide (1 ≤ k)%Z).
      - assert (0 ≤ (k - 1) * bs)%Z by nia. assert (0 ≤ k * bs)%Z by nia. lia.
      - assert (k * bs ≤ 0)%Z by nia. lia. }
    cbn [length seq fmap list_fmap zip_with]. rewrite filter_cons.
    rewrite (IH (S s) Hcell).
    case_decide as Hd; rewrite Hr in Hd; cbn [cell_isin] in Hd.
    + apply bool_decide_eq_true, list_elem_of_singleton in Hd.
      pose proof (proj1 Hg Hd) as Hin.
      replace (a - s) with 0 by lia. rewrite drop_0.
      replace (b - max a s) with (S (b - S s)) by lia.
      rewrite firstn_cons, fmap_cons, Hd.
      replace (a - S s) with 0 by lia. rewrite drop_0.
      by replace (max a (S s)) with (S s) by lia.
    + assert (¬ (a ≤ s < b)) as Hout.
      { intros Hin. apply Hd, bool_decide_eq_true, list_elem_of_singleton.
        by apply Hg. }
      destruct (decide (s < a)).
      * replace (a - s) with (S (a - S s)) by lia. rewrite skipn_cons.
        by replace (max a (S s)) with (max a s) by lia.
      * replace (b - max a s) with 0 by lia.
        replace (b - max a (S s)) with 0 by lia.
        by rewrite !take_0.
Qed.

(** Lines 236-240 on a table without a column named Group: the rows kept
    for batch [k] are the rows of the [k]-th slice, each with the group
    number appended. *)
Lemma selected_rows (t : DataFrame) (bs k : Z) :
  rectangular t → LStr "Group" ∉ columns t →
  (0 < length (rows t) → (1 ≤ bs)%Z) →
  filter (λ r, cell_isin [k] (cell_at (length (columns t)) r) = true)
    (rows (set_column t (LStr "Group")
             (group_numbers (length (rows t)) bs)))
  = (λ r, (r.1, r.2 ++ [CInt k])) <$> batch_slice bs k (rows t).
Proof.
  intros Hrect Hg Hbs. unfold set_column.
  rewrite (col_pos_not_elem_of _ _ Hg). cbn [rows].
  destruct (rows t) as [|r rs] eqn:E.
  { unfold batch_slice. case_decide; [|done].
    by rewrite drop_nil, take_nil. }
  rewrite <- E in *.
  assert (1 ≤ bs)%Z as Hbs' by (apply Hbs; rewrite E; simpl; lia).
  unfold group_numbers.
  rewrite (group_filter_slice _ _ bs k (Z.to_nat ((k - 1) * bs))
             (Z.to_nat (k * bs)) Hbs' eq_refl eq_refl).
  - f_equal. unfold batch_slice. rewrite Nat.sub_0_r, Nat.max_0_r.
    case_decide.
    + f_equal. assert (0 ≤ (k - 1) * bs)%Z by nia. lia.
    + assert (k * bs ≤ 0)%Z by nia.
      replace (Z.to_nat (k * bs) - Z.to_nat ((k - 1) * bs)) with 0 by lia.
      by rewrite take_0.
  - eapply Forall_impl; [exact Hrect|]. intros r' Hr' v. cbn beta in *.
    unfold cell_at. cbn. by apply list_lookup_total_middle.
Qed.

(** ** The colours of the map *)

Lemma class_colors_eq (color_list : option (gmap string string)) :
  mapM (λ _class,
      match color_list with
      | None => dict_getitem color_dict _class
      | Some cl =>
          match cl !! _class with
          | Some v => Ok v
          | None => dict_getitem color_dict _class
          end
      end) sv_classes = Ok (map_colors color_list).
Proof.
  apply mapM_Ok. unfold sv_classes, class_color.
  destruct color_list as [cl|]; cbn [mbind option_bind].
  - repeat constructor; by destruct (cl !! _).
  - repeat constructor.
Qed.

Lemma colorscale_eq (color_list : option (gmap string string)) :
  discrete_colorscale markers8 (map_colors color_list)
  = Ok (map_colorscale color_list).
Proof.
  rewrite (discrete_colorscale_increasing _ _ (Q2Qc (0 # 10))
             (Q2Qc (14 # 10))).
  - unfold map_colorscale. do 2 f_equal; compute_done.
  - apply markers8_increasing.
  - reflexivity.
  - discriminate.
  - reflexivity.
  - reflexivity.
Qed.


(** ** What a batch shows *)

Lemma imap_selection (F : nat → list cell) (cols : list label) :
  ∀ j l, NoDup cols → cols !! j = Some l →
    filter (λ r, r.1 = l) (imap (λ j c, (c, F j)) cols) = [(l, F j)].
Proof.
  revert F. induction cols as [|c cols IH]; intros F j l Hnd Hj; [done|].
  apply NoDup_cons in Hnd as [Hc Hnd].
  rewrite imap_cons, filter_cons. cbn [fst].
  destruct j as [|j]; cbn in Hj.
  - injection Hj as ->. case_decide; [|done]. f_equal.
    apply selection_empty. rewrite fmap_imap.
    rewrite (imap_ext _ (const id)) by done.
    by rewrite imap_const, list_fmap_id.
  - case_decide as E.
    + subst c. exfalso. apply Hc. by eapply list_elem_of_lookup_2.
    + rewrite (imap_ext _ (λ j c, (c, (F ∘ S) j))) by done.
      by apply (IH (F ∘ S) j l).
Qed.

Lemma transposed_values (cols : list label) (F : nat → list cell)
    (G : label → list cell) (labels : list label) :
  NoDup cols →
  Forall (λ l, ∃ j, cols !! j = Some l ∧ F j = G l) labels →
  (concat ((λ l, filter (λ r, r.1 = l) (imap (λ j c, (c, F j)) cols))
             <$> labels)).*2
  = G <$> labels.
Proof.
  intros Hnd. induction 1 as [|l labels (j & Hj & HF) _ IH]; [done|].
  cbn. rewrite fmap_app, IH, (imap_selection F cols j l) by done.
  cbn. by rewrite HF.
Qed.

Lemma batch_slice_Forall {A} (P : A → Prop) (bs k : Z) (l : list A) :
  Forall P l → Forall P (batch_slice bs k l).
Proof.
  intros Hl. unfold batch_slice. case_decide; [|constructor].
  by apply Forall_take, Forall_drop.
Qed.

(** Lines 236-253 on a table without a column named Group and with
    distinct column names: the rows selected from the transposed batch. *)
Lemma loc_transposed_batch (t : DataFrame) (bs k : Z) (labels : list label) :
  rectangular t → NoDup (columns t) → LStr "Group" ∉ columns t →
  (0 < length (rows t) → (1 ≤ bs)%Z) →
  Forall (λ l, l ∈ columns t) labels →
  ∃ zt,
    loc_rows
      (transpose
         (mkDF (columns (set_column t (LStr "Group")
                           (group_numbers (length (rows t)) bs)))
            (filter (λ r, cell_isin [k] (cell_at (length (columns t)) r)
                          = true)
               (rows (set_column t (LStr "Group")
                        (group_numbers (length (rows t)) bs))))))
      labels = Ok zt
    ∧ values_tolist zt
      = (λ l, row_cell t l <$> batch_slice bs k (rows t)) <$> labels.
Proof.
  intros Hrect Hnd Hg Hbs Hl.
  eexists. split.
  - apply loc_rows_present. rewrite transpose_labels. cbn [columns].
    eapply Forall_impl; [exact Hl|]. intros l. apply set_column_columns.
  - unfold values_tolist. cbn [rows transpose columns].
    rewrite (selected_rows t bs k Hrect Hg Hbs).
    unfold set_column. rewrite (col_pos_not_elem_of _ _ Hg). cbn [columns].
    apply transposed_values.
    + apply NoDup_app. split; [done|]. split; [|apply NoDup_singleton].
      intros x Hx Hx'. apply list_elem_of_singleton in Hx'. by subst x.
    + eapply Forall_impl; [exact Hl|]. intros l Hin. cbn beta.
      destruct (col_pos_elem_of _ _ Hin) as [j Hj].
      assert (columns t !! j = Some l) as Hlook.
      { unfold col_pos in Hj.
        destruct (list_find _ (columns t)) as [[j' x]|] eqn:Ef; [|done].
        injection Hj as ->. by apply list_find_Some in Ef as (? & -> & _). }
      exists j. split; [by apply lookup_app_l_Some|].
      rewrite <- list_fmap_compose. apply Forall_fmap_ext.
      eapply Forall_impl; [apply (batch_slice_Forall _ bs k _ Hrect)|].
      intros r Hr. cbn in *. unfold row_cell. rewrite Hj.
      unfold cell_at. cbn. apply lookup_total_app_l.
      rewrite Hr. by eapply lookup_lt_Some.
Qed.

(** ** The batches together *)

Lemma slices_take {A} (bs : Z) (l : list A) (m : nat) :
  (0 ≤ bs)%Z →
  concat ((λ k, batch_slice bs k l) <$> seqZ 1 (Z.of_nat m))
  = take (m * Z.to_nat bs) l.
Proof.
  intros Hbs. induction m as [|m IH]; [done|].
  rewrite seqZ_S, fmap_app, concat_app, IH. cbn [fmap list_fmap concat].
  rewrite app_nil_r. unfold batch_slice. rewrite decide_True by lia.
  replace (Z.to_nat ((1 + Z.of_nat m - 1) * bs)) with (m * Z.to_nat bs).
  - rewrite take_take_drop. f_equal. lia.
  - replace (1 + Z.of_nat m - 1)%Z with (Z.of_nat m) by lia.
    rewrite Z2Nat.inj_mul by lia. by rewrite Nat2Z.id.
Qed.

(** The slices 1 to the number of groups, one after the other, are the
    list. *)
Lemma slices_cover {A} (bs : Z) (l : list A) :
  (0 < length l → (1 ≤ bs)%Z) →
  concat ((λ k, batch_slice bs k l) <$> seqZ 1 (group_count (length l) bs))
  = l.
Proof.
  intros Hbs. destruct l as [|x l]; [done|].
  assert (1 ≤ bs)%Z as Hbs' by (apply Hbs; simpl; lia).
  cbn [length group_count].
  pose proof (Z.mul_succ_div_gt (Z.of_nat (length l)) bs) as Hgt.
  pose proof (Z.div_pos (Z.of_nat (length l)) bs) as Hge.
  set (G := (Z.of_nat (length l) `div` bs + 1)%Z) in *.
  rewrite <- (Z2Nat.id G) by lia.
  rewrite slices_take by lia.
  apply take_ge. cbn [length].
  apply Nat2Z.inj_le. rewrite Nat2Z.inj_mul, !Z2Nat.id by lia.
  unfold G. lia.
Qed.

Lemma concat_fmap_fmap {A B C} (f : B → C) (g : A → list B) (ks : list A) :
  concat ((λ k, f <$> g k) <$> ks) = f <$> concat (g <$> ks).
Proof.
  induction ks as [|k ks IH]; [done|].
  cbn. by rewrite fmap_app, IH.
Qed.

(** ** The colour scale of a build *)

Lemma bind_Ok_inv {A B} (m : Py A) (f : A → Py B) (h : list DataFrame)
    (b : B) (h' : list DataFrame) :
  (m ≫= f) h = (Ok b, h') →
  ∃ a h1, m h = (Ok a, h1) ∧ f a h1 = (Ok b, h').
Proof.
  unfold mbind, Py_bind. destruct (m h) as [[a|e] h1]; [eauto|done].
Qed.

Lemma display_stage_dcolorsc dcol df e b samples sample_names
    (h : list DataFrame) out h' :
  display_stage dcol df e b samples sample_names h = (Ok out, h') →
  dcolorsc out = dcol.
Proof.
  unfold display_stage. intros H.
  repeat (apply bind_Ok_inv in H as (? & ? & _ & H)).
  by injection H as <- _.
Qed.

(** X12.  Whenever the build returns, its colour scale is the step scale
    over the boundaries 0, 0.143, 0.286, 0.429, 0.571, 0.714, 0.857, 1
    whose band for each SV class, in the order NIL, DEL, INV, INS, BND,
    DUP, UKN, has the colour that [color_list] gives for the class, or the
    default colour of the class when [color_list] has none for it; other
    keys of [color_list] are ignored, and no key is required.  The legend
    names the classes in the same order, each tick strictly inside the
    band of its class. *)
Theorem VariantMap_colorscale re_search (h : list DataFrame) dataframe
    metadata e b annotation filter_sample filter_file sample_order
    sample_names color_list out h' :
  VariantMap re_search dataframe metadata e b annotation filter_sample
    filter_file sample_order sample_names color_list h = (Ok out, h') →
  dcolorsc out = control_points norm8 (class_color color_list <$> sv_classes)
  ∧ length (dcolorsc out) = 14
  ∧ ticktext = sv_classes
  ∧ Forall2 (λ tick band, (band.1 < tick)%Qc ∧ (tick < band.2)%Qc)
      tickvals (zip norm8 (tail norm8)).
Proof.
  intros H. unfold VariantMap, VariantMap_init in H. cbv zeta in H.
  erewrite run_bind in H; [|unfold lift; by rewrite class_colors_eq].
  erewrite run_bind in H; [|unfold lift; by rewrite colorscale_eq].
  apply bind_Ok_inv in H as (df1 & h1 & _ & H).
  apply display_stage_dcolorsc in H. rewrite H.
  split; [done|]. split; [done|]. split; [done|].
  unfold tickvals, norm8. cbn. repeat constructor.
Qed.

Lemma VariantMap_colorscale_witness :
  ∃ out h',
    VariantMap (λ _ _, false) 0 ["S1"; "S2"] (NInt 2) (NInt 1) no_annotation
      [] [] None None (Some {["DEL" := "#00ff00"; "XYZ" := "#123456"]})
      [table3] = (Ok out, h')
    ∧ dcolorsc out
      = control_points norm8
          (class_color (Some {["DEL" := "#00ff00"; "XYZ" := "#123456"]})
             <$> sv_classes)
    ∧ length (dcolorsc out) = 14
    ∧ ticktext = sv_classes
    ∧ Forall2 (λ tick band, (band.1 < tick)%Qc ∧ (tick < band.2)%Qc)
        tickvals (zip norm8 (tail norm8)).
Proof.
  eexists _, _. split; [vm_compute; reflexivity|].
  eapply (VariantMap_colorscale (λ _ _, false) [table3] 0 ["S1"; "S2"]
            (NInt 2) (NInt 1) no_annotation [] [] None None
            (Some {["DEL" := "#00ff00"; "XYZ" := "#123456"]})).
  vm_compute. reflexivity.
Defined.

(** ** [discrete_colorscale] off its intended inputs *)



Lemma foldl_extend_raise (norm_mark : list Qc) (colors : list string)
    (e : exn) (ks : list (nat * string)) :
  foldl (extend_step norm_mark colors) (Raise e) ks = Raise e.
Proof. induction ks as [|k ks IH]; [done|]. cbn. exact IH. Qed.

Lemma getitem_beyond {A} (l : list A) (i : nat) :
  length l ≤ i → getitem l (Z.of_nat i) = Raise IndexError.
Proof.
  intros Hi. unfold getitem. cbv zeta.
  repeat case_decide; try lia.
  rewrite Nat2Z.id. by rewrite (lookup_ge_None_2 l i).
Qed.

Lemma control_points_nil (ns : list Qc) : control_points ns [] = [].
Proof. by destruct ns as [|a [|b ns]]. Qed.

(** The loop over the first colours, as many as there are bands or
    fewer. *)
Lemma colorscale_loop_prefix (norm_mark : list Qc) (colors : list string)
    (post : list string) cs :
  ∀ npre pre acc ns,
    norm_mark = npre ++ ns → colors = pre ++ cs ++ post →
    length npre = length pre → length cs < length ns →
    foldl (extend_step norm_mark colors) (Ok acc)
          (imap (λ i, pair (length pre + i)) cs)
    = Ok (acc ++ control_points ns cs).
Proof.
  induction cs as [|c cs IH]; intros npre pre acc ns Hn Hc Hl Hs.
  - by rewrite control_points_nil, app_nil_r.
  - destruct ns as [|a [|b ns]]; simpl in Hs; try lia.
    cbn [imap foldl].
    assert (norm_mark !! (length pre + 0) = Some a) as Ha.
    { rewrite Hn, Nat.add_0_r, <- Hl. apply list_lookup_middle. done. }
    assert (norm_mark !! S (length pre + 0) = Some b) as Hb.
    { rewrite Hn, Nat.add_0_r, <- Hl.
      rewrite (cons_middle a npre), app_assoc.
      apply list_lookup_middle. rewrite length_app. simpl. lia. }
    assert (colors !! (length pre + 0) = Some c) as Hcol.
    { rewrite Hc, Nat.add_0_r. cbn [app]. apply list_lookup_middle. done. }
    unfold extend_step at 2. cbn [fst snd].
    replace (Z.of_nat (length pre + 0) + 1)%Z
      with (Z.of_nat (S (length pre + 0))) by lia.
    rewrite (getitem_nat _ _ _ Ha), (getitem_nat _ _ _ Hb),
      (getitem_nat _ _ _ Hcol).
    cbn.
    rewrite (imap_ext _ (λ i, pair (length (pre ++ [c]) + i)) cs).
    2:{ intros i x _. simpl. rewrite length_app. simpl. f_equal. lia. }
    rewrite (IH (npre ++ [a]) (pre ++ [c]) _ (b :: ns)).
    + by rewrite <- app_assoc.
    + by rewrite <- app_assoc.
    + rewrite Hc. by rewrite <- app_assoc.
    + rewrite !length_app. simpl. lia.
    + simpl. lia.
Qed.

Lemma norm_mark_increasing (markers : list Qc) (lo hi : Qc) :
  StronglySorted Qclt markers → 2 ≤ length markers →
  head markers = Some lo → last markers = Some hi →
  mapM (λ v,
      m0 ← getitem markers 0;
      ml ← getitem markers (-1);
      q ← truediv (v - m0)%Qc (ml - m0)%Qc;
      mret (round3 q)) markers
  = Ok (min_max lo hi <$> markers).
Proof.
  intros Hs H2 Hh Hl.
  pose proof (increasing_head_lt_last _ _ _ Hs H2 Hh Hl) as Hlt.
  apply mapM_Ok, Forall_true. intros v.
  assert (getitem markers 0 = Ok lo) as ->.
  { apply (getitem_nat markers 0). by rewrite <- head_lookup. }
  rewrite (getitem_last _ _ Hl). cbn.
  unfold truediv. case_decide as E; [|done].
  exfalso. apply (irreflexivity Qclt lo).
  replace lo with (lo + 0)%Qc at 2 by ring. rewrite <- E.
  by replace (lo + (hi - lo))%Qc with hi by ring.
Qed.

(** X15.  More colours than bands make [discrete_colorscale] raise
    [IndexError]: with increasing markers, two or more or none at all, and
    at least as many colours as markers (and at least one colour), the
    loop reads a scaled marker past the last one. *)
Theorem discrete_colorscale_too_many_colors (markers : list Qc)
    (colors : list string) :
  StronglySorted Qclt markers → length markers ≠ 1 →
  colors ≠ [] → length markers ≤ length colors →
  discrete_colorscale markers colors = Raise IndexError.
Proof.
  intros Hs H1 Hne Hlen. unfold discrete_colorscale. cbv zeta.
  rewrite (sorted_increasing _ Hs).
  destruct (decide (markers = [])) as [->|Hm].
  { destruct colors as [|c cs]; [done|].
    cbn. apply foldl_extend_raise. }
  assert (2 ≤ length markers) as H2.
  { destruct markers; [done|]. simpl in *. lia. }
  destruct (head markers) as [lo|] eqn:Eh;
    [|by apply head_None in Eh].
  destruct (last markers) as [hi|] eqn:El;
    [|by apply last_None in El].
  rewrite (norm_mark_increasing markers lo hi Hs H2) by done.
  cbn [mbind result_bind].
  set (norm_mark := min_max lo hi <$> markers).
  assert (length norm_mark = length markers) as Hnl
    by (unfold norm_mark; by rewrite length_fmap).
  set (m := length markers - 1).
  destruct (drop m colors) as [|c cs2] eqn:Ed.
  { apply (f_equal length) in Ed. rewrite length_drop in Ed.
    simpl in Ed. lia. }
  assert (colors = take m colors ++ c :: cs2) as Hc
    by (by rewrite <- Ed, take_drop).
  assert (length (take m colors) = m) as Ht
    by (rewrite length_take; lia).
  rewrite Hc at 2. rewrite imap_app, foldl_app.
  assert (foldl (extend_step norm_mark colors) (Ok [])
            (imap pair (take m colors))
          = Ok ([] ++ control_points norm_mark (take m colors))) as ->.
  { apply (colorscale_loop_prefix norm_mark colors (c :: cs2)
             (take m colors) [] [] [] norm_mark); try done. lia. }
  rewrite imap_cons. cbn [foldl].
  rewrite Ht, Nat.add_0_r.
  assert (extend_step norm_mark colors
            (Ok ([] ++ control_points norm_mark (take m colors))) (m, c)
          = Raise IndexError) as ->; [|apply foldl_extend_raise].
  unfold extend_step. cbn [fst snd].
  assert (is_Some (norm_mark !! m)) as [a Ha]
    by (apply lookup_lt_is_Some; lia).
  assert (colors !! m = Some c) as Hcol.
  { rewrite Hc. rewrite <- Ht at 1. by apply list_lookup_middle. }
  rewrite (getitem_nat _ _ _ Ha), (getitem_nat _ _ _ Hcol).
  replace (Z.of_nat m + 1)%Z with (Z.of_nat (S m)) by lia.
  rewrite (getitem_beyond norm_mark (S m)) by lia.
  done.
Qed.

Lemma discrete_colorscale_too_many_colors_witness :
  discrete_colorscale [0%Qc; 1%Qc] ["a"; "b"] = Raise IndexError.
Proof.
  apply (discrete_colorscale_too_many_colors [0%Qc; 1%Qc] ["a"; "b"]).
  - repeat constructor.
  - simpl. lia.
  - done.
  - simpl. lia.
Defined.

(** ** The filters together *)

Lemma mask_stage (g : cell → bool) (names : list string)
    (h : list DataFrame) df t :
  h !! df = Some t → Forall (λ s, LStr s ∈ columns t) names →
  ∃ df' h',
    (if nonempty names
     then for_each names
            (λ df c, col ← py_col df (LStr c); py_mask df (g <$> col)) df
     else mret df) h = (Ok df', h')
    ∧ h' !! df'
      = Some (mkDF (columns t)
                (filter (λ r, forallb (λ s, g (row_cell t (LStr s) r)) names
                              = true) (rows t))).
Proof.
  intros Hdf Hcols.
  destruct names as [|s names]; [|by apply mask_loop].
  exists df, h. split; [done|].
  rewrite filter_all by done. by destruct t.
Qed.

Lemma forallb_perm {A} (f : A → bool) (l l' : list A) :
  l ≡ₚ l' → forallb f l = forallb f l'.
Proof.
  intros Hp. apply eq_true_iff_eq.
  rewrite !forallb_forall. by setoid_rewrite <- Hp.
Qed.

(** X17.  The order in which the samples of [filter_sample], or the
    filters of [filter_file], are listed does not change the table the
    step leaves: two lists that are permutations of each other give the
    same table. *)
Theorem filter_lists_order_irrelevant (h : list DataFrame) (df : nat)
    (t : DataFrame) (names names' : list string) :
  h !! df = Some t →
  Forall (λ s, LStr s ∈ columns t) names →
  names ≡ₚ names' →
  (∃ d1 h1 d2 h2 t',
     subset_by_sample df names h = (Ok d1, h1)
     ∧ subset_by_sample df names' h = (Ok d2, h2)
     ∧ h1 !! d1 = Some t' ∧ h2 !! d2 = Some t')
  ∧ (∃ d1 h1 d2 h2 t',
       subset_by_file df names h = (Ok d1, h1)
       ∧ subset_by_file df names' h = (Ok d2, h2)
       ∧ h1 !! d1 = Some t' ∧ h2 !! d2 = Some t').
Proof.
  intros Hdf Hcols Hp.
  assert (Forall (λ s, LStr s ∈ columns t) names') as Hcols'
    by (by rewrite <- Hp).
  split.
  - destruct (mask_stage (cell_eq_num 0%Qc) names h df t Hdf Hcols)
      as (d1 & h1 & Hr1 & Ht1).
    destruct (mask_stage (cell_eq_num 0%Qc) names' h df t Hdf Hcols')
      as (d2 & h2 & Hr2 & Ht2).
    eexists d1, h1, d2, h2, _. split; [exact Hr1|]. split; [exact Hr2|].
    split; [exact Ht1|]. rewrite Ht2. do 2 f_equal.
    apply list_filter_iff. intros r. by rewrite (forallb_perm _ _ _ Hp).
  - destruct (mask_stage (cell_ne_str "1") names h df t Hdf Hcols)
      as (d1 & h1 & Hr1 & Ht1).
    destruct (mask_stage (cell_ne_str "1") names' h df t Hdf Hcols')
      as (d2 & h2 & Hr2 & Ht2).
    eexists d1, h1, d2, h2, _. split; [exact Hr1|]. split; [exact Hr2|].
    split; [exact Ht1|]. rewrite Ht2. do 2 f_equal.
    apply list_filter_iff. intros r. by rewrite (forallb_perm _ _ _ Hp).
Qed.

Lemma filter_lists_order_irrelevant_witness :
  (∃ d1 h1 d2 h2 t',
     subset_by_sample 0 ["S1"; "S2"] [table3] = (Ok d1, h1)
     ∧ subset_by_sample 0 ["S2"; "S1"] [table3] = (Ok d2, h2)
     ∧ h1 !! d1 = Some t' ∧ h2 !! d2 = Some t')
  ∧ (∃ d1 h1 d2 h2 t',
       subset_by_file 0 ["S1"; "S2"] [table3] = (Ok d1, h1)
       ∧ subset_by_file 0 ["S2"; "S1"] [table3] = (Ok d2, h2)
       ∧ h1 !! d1 = Some t' ∧ h2 !! d2 = Some t').
Proof.
  apply (filter_lists_order_irrelevant [table3] 0 table3 ["S1"; "S2"]
           ["S2"; "S1"]).
  - reflexivity.
  - repeat constructor.
  - apply perm_swap.
Defined.




(** ** A batch number below 1 *)





(** ** Labels and rows side by side *)

Lemma resolve_names_eq (sample_names : option (gmap string string))
    (order : list string) :
  resolve_names sample_names order
  = reverse ((λ x, default x (d ← sample_names; d !! x)) <$> order).
Proof.
  unfold resolve_names. f_equal. destruct sample_names as [d|]; cbn.
  - by rewrite names_loop.
  - by rewrite list_fmap_id.
Qed.

(** ** Columns that are missing *)

Lemma run_subset_contains_missing re_search (h : list DataFrame) df t
    key pat :
  h !! df = Some t → LStr key ∉ columns t →
  subset_contains re_search df key pat h = (Raise KeyError, h).
Proof.
  intros Hdf Hk. unfold subset_contains.
  erewrite run_bind_raise; [done|].
  unfold py_col. erewrite run_bind; [|by apply run_deref].
  unfold lift, getitem_col. by rewrite (col_pos_not_elem_of _ _ Hk).
Qed.


(** X22.  Gene names given for a table without a ['Gene_name'] column
    make the step raise [KeyError], with or without an index list. *)
Theorem gene_names_missing_column_KeyError re_search (h : list DataFrame)
    (df : nat) (t : DataFrame) (genes : list string) (idx : option (list Z))
    (others : list (string * list string)) :
  h !! df = Some t →
  genes ≠ [] → LStr "Gene_name" ∉ columns t →
  subset_by_gene_and_index re_search df
    (mkAnnotation (Some genes) idx others) h = (Raise KeyError, h).
Proof.
  intros Hdf Hg Hk.
  unfold subset_by_gene_and_index.
  cbn [annotation_truthy Gene_name index_list].
  destruct genes as [|g genes]; [done|].
  destruct idx as [[|i idx]|]; cbn [nonempty andb];
    (erewrite run_bind_raise; [done|]);
    by apply (run_subset_contains_missing _ _ _ t).
Qed.

Lemma gene_names_missing_column_KeyError_witness :
  subset_by_gene_and_index literal_search 0
    (mkAnnotation (Some ["GENE1"]) (Some [1%Z]) []) [numbered_table 3]
  = (Raise KeyError, [numbered_table 3]).
Proof.
  apply (gene_names_missing_column_KeyError literal_search
           [numbered_table 3] 0 (numbered_table 3) ["GENE1"] (Some [1%Z]) []).
  - reflexivity.
  - done.
  - compute_done.
Defined.



(** * Over the arithmetic of the interpreter *)

Lemma mapM_ext {A B} (f g : A → result B) (l : list A) :
  (∀ x, f x = g x) → mapM f l = mapM g l.
Proof.
  intros Hfg. induction l as [|x l IH]; [done|].
  cbn. by rewrite Hfg, IH.
Qed.

Lemma mapM_Forall2 {A B} (f : A → result B) (l : list A) (k : list B) :
  mapM f l = Ok k ↔ Forall2 (λ x y, f x = Ok y) l k.
Proof.
  split.
  - revert k. induction l as [|x l IH]; intros k Hk.
    + cbn in Hk. injection Hk as <-. constructor.
    + cbn in Hk. destruct (f x) as [y|] eqn:Ex; [|done].
      destruct (mapM f l) as [k'|] eqn:El; [|done].
      cbn in Hk. injection Hk as <-. constructor; [done|by apply IH].
  - induction 1 as [|x y l k Hx _ IH]; [done|].
    cbn. rewrite Hx. cbn. by rewrite IH.
Qed.

(** ** [discrete_colorscale] *)

Section ColourScale.

Context `{A : Fl.Arithmetic}.

Lemma control_points_no_color (ns : list Fl.num) : Fl.control_points ns [] = [].
Proof. by destruct ns as [|a [|b ns]]. Qed.

(** The loop over the first colours, as many as there are bands or
    fewer. *)
Lemma extend_loop (norm_mark : list Fl.num) (colors : list string)
    (post : list string) cs :
  ∀ npre pre acc ns,
    norm_mark = npre ++ ns → colors = pre ++ cs ++ post →
    length npre = length pre → length cs < length ns →
    foldl (Fl.extend_step norm_mark colors) (Ok acc)
          (imap (λ i, pair (length pre + i)) cs)
    = Ok (acc ++ Fl.control_points ns cs).
Proof.
  induction cs as [|c cs IH]; intros npre pre acc ns Hn Hc Hl Hs.
  - by rewrite control_points_no_color, app_nil_r.
  - destruct ns as [|a [|b ns]]; simpl in Hs; try lia.
    cbn [imap foldl].
    assert (norm_mark !! (length pre + 0) = Some a) as Ha.
    { rewrite Hn, Nat.add_0_r, <- Hl. apply list_lookup_middle. done. }
    assert (norm_mark !! S (length pre + 0) = Some b) as Hb.
    { rewrite Hn, Nat.add_0_r, <- Hl.
      rewrite (cons_middle a npre), app_assoc.
      apply list_lookup_middle. rewrite length_app. simpl. lia. }
    assert (colors !! (length pre + 0) = Some c) as Hcol.
    { rewrite Hc, Nat.add_0_r. cbn [app]. apply list_lookup_middle. done. }
    unfold Fl.extend_step at 2. cbn [fst snd].
    replace (Z.of_nat (length pre + 0) + 1)%Z
      with (Z.of_nat (S (length pre + 0))) by lia.
    rewrite (getitem_nat _ _ _ Ha), (getitem_nat _ _ _ Hb),
      (getitem_nat _ _ _ Hcol).
    cbn.
    rewrite (imap_ext _ (λ i, pair (length (pre ++ [c]) + i)) cs).
    2:{ intros i x _. simpl. rewrite length_app. simpl. f_equal. lia. }
    rewrite (IH (npre ++ [a]) (pre ++ [c]) _ (b :: ns)).
    + by rewrite <- app_assoc.
    + by rewrite <- app_assoc.
    + rewrite Hc. by rewrite <- app_assoc.
    + rewrite !length_app. simpl. lia.
    + simpl. lia.
Qed.

Lemma length_control_points (ns : list Fl.num) (cs : list string) :
  length cs < length ns → length (Fl.control_points ns cs) = 2 * length cs.
Proof.
  revert ns. induction cs as [|c cs IH]; intros ns Hl.
  - by rewrite control_points_no_color.
  - destruct ns as [|a [|b ns]]; simpl in Hl; try lia.
    change (Fl.control_points (a :: b :: ns) (c :: cs))
      with ((a, c) :: (b, c) :: Fl.control_points (b :: ns) cs).
    cbn [length]. rewrite (IH (b :: ns)) by (simpl; lia). lia.
Qed.



(** Line 367 on markers that begin with [lo] and end with [hi]. *)
Lemma norm_mark_min_max (markers : list Fl.num) (lo hi : Fl.num) :
  head markers = Some lo → last markers = Some hi →
  mapM (λ v,
      m0 ← getitem markers 0;
      x ← Fl.sub v m0;
      ml ← getitem markers (-1);
      m0' ← getitem markers 0;
      d ← Fl.sub ml m0';
      q ← Fl.truediv x d;
      mret (Fl.round3 q)) markers
  = mapM (Fl.min_max lo hi) markers.
Proof.
  intros Hh Hl. apply mapM_ext. intros v.
  assert (getitem markers 0 = Ok lo) as ->.
  { apply (getitem_nat markers 0). by rewrite <- head_lookup. }
  rewrite (getitem_last _ _ Hl). cbn. unfold Fl.min_max.
  destruct (Fl.sub v lo); [|done]. cbn.
  destruct (Fl.sub hi lo); done.
Qed.

(** With fewer colours than markers: the scaled markers, when each of
    them is computed, then two control points for each colour.  [ms] are
    the markers as [sorted] orders them. *)
Lemma run_discrete_colorscale (markers ms : list Fl.num)
    (colors : list string) (lo hi : Fl.num) :
  Fl.sorted markers = ms → length colors < length ms →
  head ms = Some lo → last ms = Some hi →
  Fl.discrete_colorscale markers colors
  = (norm_mark ← mapM (Fl.min_max lo hi) ms;
     mret (Fl.control_points norm_mark colors)).
Proof.
  intros Hs Hlen Hh Hl. unfold Fl.discrete_colorscale. cbv zeta.
  rewrite Hs, (norm_mark_min_max ms lo hi Hh Hl).
  destruct (mapM (Fl.min_max lo hi) ms) as [norm_mark|e] eqn:E; [|done].
  cbn.
  apply mapM_Forall2, Forall2_length in E.
  apply (extend_loop norm_mark colors [] colors [] [] [] norm_mark);
    try done.
  - by rewrite app_nil_r.
  - lia.
Qed.

End ColourScale.

(** With fewer colours than bands the scale covers the first bands. *)
Section FirstBands.

Context `{A : Fl.Arithmetic}.

(** X14.  With fewer colours than markers, [discrete_colorscale] returns
    two control points for each colour, on the first bands of the sorted
    markers [ms]; the markers past them bound no band, but the last one
    still sets the scale: each position is
    [round((v - lo) / (hi - lo), 3)] for the first marker [lo] and the
    last marker [hi], as the interpreter computes it. *)
Theorem discrete_colorscale_first_bands (markers ms : list Fl.num)
    (colors : list string) (lo hi : Fl.num) (norm_mark : list Fl.num) :
  Fl.sorted markers = ms → length colors < length ms →
  head ms = Some lo → last ms = Some hi →
  Forall2 (λ v p, Fl.min_max lo hi v = Ok p) ms norm_mark →
  Fl.discrete_colorscale markers colors
  = Ok (Fl.control_points norm_mark colors)
  ∧ length (Fl.control_points norm_mark colors) = 2 * length colors.
Proof.
  intros Hs Hlen Hh Hl Hn.
  pose proof (Forall2_length _ _ _ Hn) as Hnl.
  split; [|apply length_control_points; lia].
  rewrite (run_discrete_colorscale markers ms colors lo hi) by done.
  apply mapM_Forall2 in Hn. by rewrite Hn.
Qed.

End FirstBands.

Lemma discrete_colorscale_first_bands_witness :
  Fl.discrete_colorscale (A := rationals) [Qc_of_Z 4; 0%Qc; 1%Qc] ["a"]
  = Ok (Fl.control_points (A := rationals)
          (min_max 0%Qc (Qc_of_Z 4) <$> [0%Qc; 1%Qc; Qc_of_Z 4]) ["a"])
  ∧ length (Fl.control_points (A := rationals)
              (min_max 0%Qc (Qc_of_Z 4) <$> [0%Qc; 1%Qc; Qc_of_Z 4]) ["a"])
    = 2 * length ["a"].
Proof.
  apply (discrete_colorscale_first_bands (A := rationals)
           [Qc_of_Z 4; 0%Qc; 1%Qc] [0%Qc; 1%Qc; Qc_of_Z 4] ["a"]
           0%Qc (Qc_of_Z 4)).
  - reflexivity.
  - simpl. lia.
  - reflexivity.
  - reflexivity.
  - repeat constructor.
Defined.

(** ** Lines 224-271 *)

Section Display.

Context `{A : Fl.Arithmetic}.

(** A run of lines 224-271 that raises nowhere. *)
Lemma run_display (h : list DataFrame) df t (dcol : list (Fl.num * string))
    (e b : Fl.num) samples sample_names bs k jg zt ht :
  h !! df = Some t →
  Fl.batch_size_of (length (rows t)) e = Ok bs →
  Fl.int b = Ok k →
  let t1 := set_column t (LStr "Group") (group_numbers (length (rows t)) bs) in
  col_pos t1 (LStr "Group") = Some jg →
  let t2 := mkDF (columns t1)
              (filter (λ r, cell_isin [k] (cell_at jg r) = true)
                 (rows t1)) in
  let order := filter (λ x, LStr x ∈ columns t) samples in
  loc_rows (transpose t2) (LStr <$> order) = Ok zt →
  loc_rows (transpose t2) (LStr <$> ((λ x, "Hover_" +:+ x) <$> order)) = Ok ht →
  ∃ h',
    Fl.display_stage dcol df e b samples sample_names h
    = (Ok (Fl.mkVM dcol bs (reverse (values_tolist zt))
             (reverse (values_tolist ht))
             (resolve_names sample_names order)), h').
Proof.
  intros Hdf Hbs Hk t1 Hjg t2 order Hz Hh.
  eexists. unfold Fl.display_stage.
  erewrite run_bind; [|by eapply run_py_copy].
  erewrite run_bind; [|eapply run_py_columns; heap_lookup].
  erewrite run_bind; [|eapply run_py_len; heap_lookup].
  erewrite run_bind; [|unfold lift; by rewrite Hbs].
  erewrite run_bind; [|apply run_py_set_column_last].
  erewrite run_bind;
    [|eapply run_py_col; [heap_lookup|]; unfold getitem_col;
      fold t1; by rewrite Hjg].
  erewrite run_bind; [|unfold lift; by rewrite Hk].
  erewrite run_bind;
    [|eapply run_py_mask; [heap_lookup|];
      rewrite <- list_fmap_compose; apply getitem_mask_fmap].
  erewrite run_bind; [|eapply run_py_transpose; heap_lookup].
  erewrite run_bind; [|eapply run_py_loc; [heap_lookup|exact Hz]].
  erewrite run_bind; [|eapply run_py_values; heap_lookup].
  erewrite run_bind; [|eapply run_py_loc; [heap_lookup|exact Hh]].
  erewrite run_bind; [|eapply run_py_values; heap_lookup].
  reflexivity.
Qed.

(** The run on a well-formed table: rows with one cell per column,
    distinct column names, none of them Group, and the hover column of
    every sample shown; the batch size computed is [bs], at least 1 when
    the table has rows, and the batch number is [k]. *)
Lemma display_batch (h : list DataFrame) df t (dcol : list (Fl.num * string))
    (e b : Fl.num) samples sample_names bs k :
  h !! df = Some t →
  rectangular t → NoDup (columns t) → LStr "Group" ∉ columns t →
  Forall (λ x, LStr ("Hover_" +:+ x) ∈ columns t)
    (filter (λ x, LStr x ∈ columns t) samples) →
  Fl.batch_size_of (length (rows t)) e = Ok bs →
  (0 < length (rows t) → (1 ≤ bs)%Z) →
  Fl.int b = Ok k →
  ∃ h',
    Fl.display_stage dcol df e b samples sample_names h
    = (Ok (Fl.mkVM dcol bs
             (reverse
                (shown t bs k (filter (λ x, LStr x ∈ columns t) samples)))
             (reverse
                (shown t bs k
                   ((λ x, "Hover_" +:+ x)
                      <$> filter (λ x, LStr x ∈ columns t) samples)))
             (resolve_names sample_names
                (filter (λ x, LStr x ∈ columns t) samples))), h').
Proof.
  intros Hdf Hrect Hnd Hg Hhov Hbs Hpos Hk.
  set (order := filter (λ x, LStr x ∈ columns t) samples) in *.
  pose proof (col_pos_set_column t (LStr "Group")
                (group_numbers (length (rows t)) bs)) as Hjg.
  rewrite (col_pos_not_elem_of _ _ Hg) in Hjg. cbn [default] in Hjg.
  destruct (loc_transposed_batch t bs k (LStr <$> order)
              Hrect Hnd Hg Hpos) as (zt & Hz & Hzv).
  { apply Forall_fmap, Forall_forall. intros x Hx. cbn.
    by apply list_elem_of_filter in Hx as [Hx _]. }
  destruct (loc_transposed_batch t bs k
              (LStr <$> ((λ x, "Hover_" +:+ x) <$> order))
              Hrect Hnd Hg Hpos) as (ht & Hh & Hhv).
  { by apply Forall_fmap, Forall_fmap. }
  destruct (run_display h df t dcol e b samples sample_names bs k
              (length (columns t)) zt ht Hdf Hbs Hk Hjg Hz Hh) as [h' Hrun].
  exists h'. rewrite Hrun, Hzv, Hhv. unfold shown.
  by rewrite <- !list_fmap_compose.
Qed.

(** X9.  Lines 224-271 on a well-formed filtered table (one cell per
    column in every row, distinct column names, no column named Group, a
    hover column for every sample shown), when lines 231-234 compute the
    batch size [bs], at least 1 if the table has rows, and
    [int(batch_no_for_display)] is [k]: the build returns, with the colour
    scale given and the batch size [bs].  Batch [k] is the [k]-th run of
    [bs] consecutive rows of the filtered table (none when [k] is below 1
    or past the last run).  The class-code matrix has one row per sample
    of the resolved order, the last sample first, holding the cells of
    the sample column over the rows of the batch; the hover matrix holds
    those of the hover columns in the same arrangement. *)
Theorem VariantMap_shows_batch (h : list DataFrame) df t
    (dcol : list (Fl.num * string)) (e b : Fl.num) samples sample_names
    bs k :
  h !! df = Some t →
  rectangular t → NoDup (columns t) → LStr "Group" ∉ columns t →
  Forall (λ x, LStr ("Hover_" +:+ x) ∈ columns t)
    (filter (λ x, LStr x ∈ columns t) samples) →
  Fl.batch_size_of (length (rows t)) e = Ok bs →
  (0 < length (rows t) → (1 ≤ bs)%Z) →
  Fl.int b = Ok k →
  ∃ out h',
    Fl.display_stage dcol df e b samples sample_names h = (Ok out, h')
    ∧ Fl.dcolorsc out = dcol
    ∧ Fl.batch_size out = bs
    ∧ Fl.z out
      = reverse
          ((λ s, row_cell t (LStr s) <$> batch_slice bs k (rows t))
             <$> filter (λ x, LStr x ∈ columns t) samples)
    ∧ Fl.hover out
      = reverse
          ((λ s, row_cell t (LStr ("Hover_" +:+ s))
                   <$> batch_slice bs k (rows t))
             <$> filter (λ x, LStr x ∈ columns t) samples).
Proof.
  intros Hdf Hrect Hnd Hg Hhov Hbs Hpos Hk.
  destruct (display_batch h df t dcol e b samples sample_names bs k
              Hdf Hrect Hnd Hg Hhov Hbs Hpos Hk) as [h' Hrun].
  eexists _, h'. split; [exact Hrun|].
  cbn [Fl.dcolorsc Fl.batch_size Fl.z Fl.hover].
  split; [done|]. split; [done|]. unfold shown. split; [done|].
  by rewrite <- list_fmap_compose.
Qed.

(** X10.  On a well-formed filtered table, when lines 231-234 compute the
    batch size [bs], at least 1 if the table has rows, and [int] returns
    a batch number that is an [int] as it is, the builds for the batch numbers 1 to the number of
    groups that [bs] makes all return, and for every sample shown, its
    rows of the class-code matrices of these builds, one after the other,
    are its column over the filtered table: every variant is in exactly
    one batch, and the batches keep the order of the table. *)
Theorem VariantMap_batches_cover (h : list DataFrame) df t
    (dcol : list (Fl.num * string)) (e : Fl.num) samples sample_names bs :
  h !! df = Some t →
  rectangular t → NoDup (columns t) → LStr "Group" ∉ columns t →
  Forall (λ x, LStr ("Hover_" +:+ x) ∈ columns t)
    (filter (λ x, LStr x ∈ columns t) samples) →
  Fl.batch_size_of (length (rows t)) e = Ok bs →
  (0 < length (rows t) → (1 ≤ bs)%Z) →
  (∀ k, (1 ≤ k ≤ group_count (length (rows t)) bs)%Z →
        Fl.int (Fl.of_int k) = Ok k) →
  ∃ outs,
    Forall2
      (λ k out, ∃ h',
         Fl.display_stage dcol df e (Fl.of_int k) samples sample_names h
         = (Ok out, h'))
      (seqZ 1 (group_count (length (rows t)) bs)) outs
    ∧ ∀ i x,
        filter (λ x, LStr x ∈ columns t) samples !! i = Some x →
        concat ((λ out, reverse (Fl.z out) !!! i) <$> outs)
        = row_cell t (LStr x) <$> rows t.
Proof.
  intros Hdf Hrect Hnd Hg Hhov Hbs Hpos Hint.
  set (order := filter (λ x, LStr x ∈ columns t) samples) in *.
  exists ((λ k, Fl.mkVM dcol bs
                  (reverse (shown t bs k order))
                  (reverse (shown t bs k ((λ x, "Hover_" +:+ x) <$> order)))
                  (resolve_names sample_names order))
            <$> seqZ 1 (group_count (length (rows t)) bs)).
  split.
  - apply Forall2_fmap_r, Forall_Forall2_diag, Forall_forall.
    intros k Hk. cbn. apply elem_of_seqZ in Hk.
    apply (display_batch h df t dcol e (Fl.of_int k) samples sample_names
             bs k Hdf Hrect Hnd Hg Hhov Hbs Hpos).
    apply Hint. lia.
  - intros i x Hi.
    rewrite <- list_fmap_compose.
    rewrite (list_fmap_ext _
               (λ k, row_cell t (LStr x) <$> batch_slice bs k (rows t))).
    + rewrite concat_fmap_fmap. f_equal. by apply slices_cover.
    + intros ? k _. unfold compose. cbn [Fl.z]. rewrite reverse_involutive.
      unfold shown. apply list_lookup_total_correct.
      by rewrite list_lookup_fmap, Hi.
Qed.

(** X21.  On a well-formed filtered table, the three outputs line up:
    going through the samples shown from the last to the first, the
    [i]-th display name is the name of the [i]-th sample, the [i]-th row
    of the class-code matrix holds its codes over the batch, and the
    [i]-th row of the hover matrix its hover texts. *)
Theorem VariantMap_rows_line_up (h : list DataFrame) df t
    (dcol : list (Fl.num * string)) (e b : Fl.num) samples sample_names
    bs k :
  h !! df = Some t →
  rectangular t → NoDup (columns t) → LStr "Group" ∉ columns t →
  Forall (λ x, LStr ("Hover_" +:+ x) ∈ columns t)
    (filter (λ x, LStr x ∈ columns t) samples) →
  Fl.batch_size_of (length (rows t)) e = Ok bs →
  (0 < length (rows t) → (1 ≤ bs)%Z) →
  Fl.int b = Ok k →
  ∃ out h',
    Fl.display_stage dcol df e b samples sample_names h = (Ok out, h')
    ∧ ∀ i s,
        reverse (filter (λ x, LStr x ∈ columns t) samples) !! i = Some s →
        Fl.names out !! i = Some (default s (d ← sample_names; d !! s))
        ∧ Fl.z out !! i
          = Some (row_cell t (LStr s) <$> batch_slice bs k (rows t))
        ∧ Fl.hover out !! i
          = Some (row_cell t (LStr ("Hover_" +:+ s))
                    <$> batch_slice bs k (rows t)).
Proof.
  intros Hdf Hrect Hnd Hg Hhov Hbs Hpos Hk.
  destruct (display_batch h df t dcol e b samples sample_names bs k
              Hdf Hrect Hnd Hg Hhov Hbs Hpos Hk) as [h' Hrun].
  eexists _, h'. split; [exact Hrun|].
  cbn [Fl.z Fl.hover Fl.names].
  intros i s Hi. unfold shown.
  rewrite resolve_names_eq, <- list_fmap_compose, <- !fmap_reverse.
  rewrite !list_lookup_fmap, Hi. done.
Qed.

Lemma batch_slice_outside {B} (bs k : Z) (l : list B) :
  (0 < length l → (1 ≤ bs)%Z) →
  (k < 1 ∨ group_count (length l) bs < k)%Z →
  batch_slice bs k l = [].
Proof.
  intros Hbs Hk. unfold batch_slice. case_decide as H1; [|done].
  destruct Hk as [Hk|Hk]; [lia|].
  destruct l as [|x l]; [by rewrite drop_nil, take_nil|].
  assert (1 ≤ bs)%Z as Hbs' by (apply Hbs; simpl; lia).
  cbn [length group_count] in Hk.
  pose proof (Z.mul_succ_div_gt (Z.of_nat (length l)) bs) as Hgt.
  rewrite drop_ge; [by rewrite take_nil|].
  cbn [length]. apply Nat2Z.inj_le. rewrite Z2Nat.id by nia. nia.
Qed.

Lemma fmap_no_cell {B} (l : list B) :
  (λ _, @nil cell) <$> l = replicate (length l) [].
Proof. induction l as [|x l IH]; [done|]. cbn. by rewrite IH. Qed.

(** X29.  On a well-formed filtered table, a batch number below 1 or
    above the number of groups that the batch size makes shows no
    variant: the build returns, and the class-code matrix and the hover
    matrix have one row for each sample shown, each without a cell. *)
Theorem VariantMap_batch_outside (h : list DataFrame) df t
    (dcol : list (Fl.num * string)) (e b : Fl.num) samples sample_names
    bs k :
  h !! df = Some t →
  rectangular t → NoDup (columns t) → LStr "Group" ∉ columns t →
  Forall (λ x, LStr ("Hover_" +:+ x) ∈ columns t)
    (filter (λ x, LStr x ∈ columns t) samples) →
  Fl.batch_size_of (length (rows t)) e = Ok bs →
  (0 < length (rows t) → (1 ≤ bs)%Z) →
  Fl.int b = Ok k →
  (k < 1 ∨ group_count (length (rows t)) bs < k)%Z →
  ∃ out h',
    Fl.display_stage dcol df e b samples sample_names h = (Ok out, h')
    ∧ Fl.z out
      = replicate (length (filter (λ x, LStr x ∈ columns t) samples)) []
    ∧ Fl.hover out
      = replicate (length (filter (λ x, LStr x ∈ columns t) samples)) [].
Proof.
  intros Hdf Hrect Hnd Hg Hhov Hbs Hpos Hk Hout.
  destruct (display_batch h df t dcol e b samples sample_names bs k
              Hdf Hrect Hnd Hg Hhov Hbs Hpos Hk) as [h' Hrun].
  eexists _, h'. split; [exact Hrun|]. cbn [Fl.z Fl.hover].
  unfold shown. rewrite (batch_slice_outside bs k (rows t) Hpos Hout).
  cbn [fmap list_fmap].
  rewrite !fmap_no_cell, !reverse_replicate, length_fmap. done.
Qed.

(** X30.  What lines 231-234 raise, the build raises, before anything is
    selected: [ZeroDivisionError] for an [entries_per_batch] of zero, and
    what [math.ceil] raises on a quotient that the arithmetic makes a NaN
    or an infinity. *)
Theorem VariantMap_batch_size_raises (h : list DataFrame) df t
    (dcol : list (Fl.num * string)) (e b : Fl.num) samples sample_names
    (x : exn) :
  h !! df = Some t →
  Fl.batch_size_of (length (rows t)) e = Raise x →
  ∃ h',
    Fl.display_stage dcol df e b samples sample_names h = (Raise x, h').
Proof.
  intros Hdf Hbs. eexists. unfold Fl.display_stage.
  erewrite run_bind; [|by eapply run_py_copy].
  erewrite run_bind; [|eapply run_py_columns; heap_lookup].
  erewrite run_bind; [|eapply run_py_len; heap_lookup].
  erewrite run_bind_raise; [done|].
  unfold lift. by rewrite Hbs.
Qed.

End Display.

Lemma VariantMap_shows_batch_witness :
  ∃ out h',
    Fl.display_stage (A := rationals) [] 0 (Qc_of_Z 2) (Qc_of_Z 2)
      ["S1"; "S2"] None [table3] = (Ok out, h')
    ∧ Fl.dcolorsc out = []
    ∧ Fl.batch_size out = 2%Z
    ∧ Fl.z out
      = reverse
          ((λ s, row_cell table3 (LStr s) <$> batch_slice 2 2 (rows table3))
             <$> filter (λ x, LStr x ∈ columns table3) ["S1"; "S2"])
    ∧ Fl.hover out
      = reverse
          ((λ s, row_cell table3 (LStr ("Hover_" +:+ s))
                   <$> batch_slice 2 2 (rows table3))
             <$> filter (λ x, LStr x ∈ columns table3) ["S1"; "S2"]).
Proof.
  apply (VariantMap_shows_batch (A := rationals) [table3] 0 table3 []
           (Qc_of_Z 2) (Qc_of_Z 2) ["S1"; "S2"] None 2 2).
  - reflexivity.
  - repeat constructor.
  - compute_done.
  - compute_done.
  - compute_done.
  - reflexivity.
  - lia.
  - reflexivity.
Defined.

Lemma VariantMap_batches_cover_witness :
  ∃ outs,
    Forall2
      (λ k out, ∃ h',
         Fl.display_stage (A := rationals) [] 0 (Qc_of_Z 2) (Qc_of_Z k)
           ["S1"; "S2"] None [table3] = (Ok out, h'))
      (seqZ 1 (group_count (length (rows table3)) 2)) outs
    ∧ ∀ i x,
        filter (λ x, LStr x ∈ columns table3) ["S1"; "S2"] !! i = Some x →
        concat ((λ out, reverse (Fl.z out) !!! i) <$> outs)
        = row_cell table3 (LStr x) <$> rows table3.
Proof.
  apply (VariantMap_batches_cover (A := rationals) [table3] 0 table3 []
           (Qc_of_Z 2) ["S1"; "S2"] None 2).
  - reflexivity.
  - repeat constructor.
  - compute_done.
  - compute_done.
  - compute_done.
  - reflexivity.
  - lia.
  - intros k _. cbn. by rewrite Z.quot_1_r.
Defined.

Lemma VariantMap_rows_line_up_witness :
  ∃ out h',
    Fl.display_stage (A := rationals) [] 0 (Qc_of_Z 2) (Qc_of_Z 1)
      ["S1"; "S2"] (Some {["S1" := "Patient A"]}) [table3] = (Ok out, h')
    ∧ ∀ i s,
        reverse (filter (λ x, LStr x ∈ columns table3) ["S1"; "S2"]) !! i
        = Some s →
        Fl.names out !! i
        = Some (default s
                  (d ← Some ({["S1" := "Patient A"]} : gmap string string);
                   d !! s))
        ∧ Fl.z out !! i
          = Some (row_cell table3 (LStr s) <$> batch_slice 2 1 (rows table3))
        ∧ Fl.hover out !! i
          = Some (row_cell table3 (LStr ("Hover_" +:+ s))
                    <$> batch_slice 2 1 (rows table3)).
Proof.
  apply (VariantMap_rows_line_up (A := rationals) [table3] 0 table3 []
           (Qc_of_Z 2) (Qc_of_Z 1) ["S1"; "S2"]
           (Some {["S1" := "Patient A"]}) 2 1).
  - reflexivity.
  - repeat constructor.
  - compute_done.
  - compute_done.
  - compute_done.
  - reflexivity.
  - lia.
  - reflexivity.
Defined.

Lemma VariantMap_batch_outside_witness :
  ∃ out h',
    Fl.display_stage (A := rationals) [] 0 (Qc_of_Z 2) (Qc_of_Z 5)
      ["S1"; "S2"] None [table3] = (Ok out, h')
    ∧ Fl.z out
      = replicate
          (length (filter (λ x, LStr x ∈ columns table3) ["S1"; "S2"])) []
    ∧ Fl.hover out
      = replicate
          (length (filter (λ x, LStr x ∈ columns table3) ["S1"; "S2"])) [].
Proof.
  apply (VariantMap_batch_outside (A := rationals) [table3] 0 table3 []
           (Qc_of_Z 2) (Qc_of_Z 5) ["S1"; "S2"] None 2 5).
  - reflexivity.
  - repeat constructor.
  - compute_done.
  - compute_done.
  - compute_done.
  - reflexivity.
  - lia.
  - reflexivity.
  - right. compute_done.
Defined.

Lemma VariantMap_batch_size_raises_witness :
  ∃ h',
    Fl.display_stage (A := rationals) [] 0 (Qc_of_Z 0) (Qc_of_Z 1)
      ["S1"; "S2"] None [table3]
    = (Raise ZeroDivisionError, h').
Proof.
  apply (VariantMap_batch_size_raises (A := rationals) [table3] 0 table3 []
           (Qc_of_Z 0) (Qc_of_Z 1) ["S1"; "S2"] None ZeroDivisionError).
  - reflexivity.
  - reflexivity.
Defined.

(** * On binary64 *)

(** ** Facts of binary64 *)














(** X26.  [round] rounds the double:
    [discrete_colorscale([0.0, 5.0, 2000.0], ["a", "b"])] puts the middle
    boundary at 0.003 on binary64, because the quotient 5/2000 is the
    double nearest to 0.0025, which lies above it; computed exactly,
    0.0025 is a tie between two decimals and goes to 0.002, which is what
    the exact arithmetic of the first part gives. *)
Theorem binary64_rounds_the_double :
  Fl.discrete_colorscale (A := binary64)
    (B64.literal <$> [0; 5; 2000]%Q) ["a"; "b"]
  = Ok [(B64.literal 0, "a"); (B64.literal (3 # 1000), "a");
        (B64.literal (3 # 1000), "b"); (B64.literal 1, "b")]
  ∧ discrete_colorscale (Q2Qc <$> [0; 5; 2000]%Q) ["a"; "b"]
    = Ok [(Q2Qc 0, "a"); (Q2Qc (2 # 1000), "a");
          (Q2Qc (2 # 1000), "b"); (Q2Qc 1, "b")].
Proof. split; [vm_compute; reflexivity|compute_done]. Qed.

(** X27.  Lines 230-234 on binary64, with the default of 2500 entries to
    a batch: 2500 rows give batches of 2498, as the exact arithmetic of
    the first part does; 1001 rows give batches of 1001, because
    1001 / 1.001 is a double above 1000, where exact arithmetic gives
    1000.  With 3 rows, an [entries_per_batch] of 0.0 raises
    [ZeroDivisionError], a NaN raises [ValueError], and [1.0 / 1e308], by
    which 3 cannot be divided within the doubles, raises
    [OverflowError]. *)
Theorem binary64_batch_size :
  Fl.batch_size_of (A := binary64) 2500 (B64.of_int 2500) = Ok 2498%Z
  ∧ batch_size_of 2500 (NInt 2500) = Ok 2498%Z
  ∧ Fl.batch_size_of (A := binary64) 1001 (B64.of_int 2500) = Ok 1001%Z
  ∧ batch_size_of 1001 (NInt 2500) = Ok 1000%Z
  ∧ Fl.batch_size_of (A := binary64) 3 (B64.literal 0)
    = Raise ZeroDivisionError
  ∧ Fl.batch_size_of (A := binary64) 3 PrimFloat.nan = Raise ValueError
  ∧ Fl.batch_size_of (A := binary64) 3
      (PrimFloat.div (B64.literal 1) (B64.literal (inject_Z (10 ^ 308))))
    = Raise OverflowError.
Proof. repeat split; vm_compute; reflexivity. Qed.

(** X28.  Lines 180-181 on binary64: for any seven colours the colour
    scale of the map has its boundaries at 0.0, 0.143, 0.286, 0.429,
    0.571, 0.714, 0.857 and 1.0, each band in the colour of its class. *)
Theorem binary64_map_colorscale (color_list : option (gmap string string)) :
  Fl.discrete_colorscale (A := binary64) Fl.markers8
    (map_colors color_list)
  = Ok (Fl.control_points (A := binary64)
          ((λ k : Z, B64.literal (k # 1000))
             <$> [0; 143; 286; 429; 571; 714; 857; 1000]%Z)
          (map_colors color_list)).
Proof. vm_compute. reflexivity. Qed.
